(** * managerui: the evdev key grabber and its dispatch loop

    A shallow embedding of [src/main.c].  The program opens one Linux
    input device, detaches into the background and then loops forever:
    it reads one [struct input_event], packs it into a 32-bit integer
    (key code in the low half, status flags in the high half) and
    runs [setbacklight] when one of two keys is released.

    The operating system is modelled by an explicit world (descriptor
    table, [errno], and the chronological list of calls the process has
    made) threaded through a small state monad.  What the kernel answers
    to [open], [daemon] and to each [read] is an input of the model. *)

From Stdlib Require Import ZArith List String Ascii Bool Lia.
From Stdlib.Strings Require Import Byte.
From stdpp Require Import base gmap strings.
Import ListNotations.

Local Open Scope Z_scope.

(** ** The platform

    [main.c] takes these from system headers that are not part of the
    repository, so they are parameters of the development:
    [EV_KEY] from <linux/input.h>, the error numbers from <errno.h>,
    the exit statuses from <stdlib.h>, and the layout of
    [struct input_event] (a [struct timeval] followed by
    [__u16 type; __u16 code; __s32 value]). *)

Class Platform := {
  EV_KEY : Z;
  EINTR : Z;
  EAGAIN : Z;
  EWOULDBLOCK : Z;
  EBADF : Z;
  EXIT_SUCCESS : Z;
  EXIT_FAILURE : Z;
  sizeof_timeval : nat;
  big_endian : bool;
  EXIT_SUCCESS_zero : EXIT_SUCCESS = 0;
  EXIT_FAILURE_nonzero : EXIT_FAILURE <> 0
}.

(** Linux on x86-64: the values of the kernel and glibc headers. *)
#[export] Instance linux_x86_64 : Platform.
Proof.
  refine {| EV_KEY := 1; EINTR := 4; EAGAIN := 11; EWOULDBLOCK := 11;
            EBADF := 9; EXIT_SUCCESS := 0; EXIT_FAILURE := 1;
            sizeof_timeval := 16; big_endian := false |}.
  - reflexivity.
  - discriminate.
Defined.

(** ** The world *)

(** One entry per call the process makes, with the value it returned. *)
Inductive call :=
| Open (path : string) (result : Z)
| Read (fd : Z) (count : nat) (result : Z)
| Close (fd : Z) (result : Z)
| Daemon (result : Z)
| System (command : string)
| Stderr (text : string).

Record world := {
  fds : gset Z;          (* descriptors that are open *)
  errno : Z;
  trace : list call      (* oldest call first *)
}.

(** What the kernel answers to a call: a value, or an error number. *)
Inductive outcome (A : Type) :=
| Done (a : A)
| Fail (e : Z).
Arguments Done {A} a.
Arguments Fail {A} e.

Definition OS (A : Type) : Type := world -> A * world.

Definition ret {A} (a : A) : OS A := fun w => (a, w).

Definition bind {A B} (m : OS A) (k : A -> OS B) : OS B :=
  fun w => let (a, w') := m w in k a w'.

Notation "'let*' x ':=' m 'in' k" := (bind m (fun x => k))
  (at level 10, x pattern, m at level 100, k at level 200).

Definition log (c : call) : OS unit :=
  fun w => (tt, {| fds := fds w; errno := errno w; trace := trace w ++ [c] |}).

Definition get_errno : OS Z := fun w => (errno w, w).

Definition set_errno (e : Z) : OS unit :=
  fun w => (tt, {| fds := fds w; errno := e; trace := trace w |}).

Definition fd_open (fd : Z) : OS unit :=
  fun w => (tt, {| fds := fds w ∪ {[fd]}; errno := errno w; trace := trace w |}).

Definition fd_release (fd : Z) : OS unit :=
  fun w => (tt, {| fds := fds w ∖ {[fd]}; errno := errno w; trace := trace w |}).

Definition is_open (fd : Z) : OS bool :=
  fun w => (bool_decide (fd ∈ fds w), w).

Section Program.
Context `{Platform}.

(** ** System calls *)

(** open(2), read-only.  The kernel answers with a descriptor or fails. *)
Definition sys_open (path : string) (k : outcome Z) : OS Z :=
  match k with
  | Done fd => let* _ := fd_open fd in
               let* _ := log (Open path fd) in ret fd
  | Fail e => let* _ := set_errno e in
              let* _ := log (Open path (-1)) in ret (-1)
  end.

(** close(2): releases an open descriptor; on one that is not open it
    fails with [EBADF]. *)
Definition sys_close (fd : Z) : OS Z :=
  let* o := is_open fd in
  if (o : bool) then
    let* _ := fd_release fd in
    let* _ := log (Close fd 0) in ret 0
  else
    let* _ := set_errno EBADF in
    let* _ := log (Close fd (-1)) in ret (-1).

(** read(2) into a buffer [buf] of [count] bytes.  When the device
    delivers [data], the first [count] bytes of it overwrite the start of
    the buffer, the rest of the buffer keeps what it held, and [errno] is
    left alone; the result is the number of bytes copied (0 at end of
    file).  On an error the buffer is untouched and the result is -1. *)
Definition sys_read (fd : Z) (buf : list byte) (count : nat)
    (k : outcome (list byte)) : OS (Z * list byte) :=
  let* o := is_open fd in
  if (o : bool) then
    match k with
    | Done data =>
        let got := firstn count data in
        let n := Z.of_nat (length got) in
        let* _ := log (Read fd count n) in
        ret (n, got ++ skipn (length got) buf)
    | Fail e =>
        let* _ := set_errno e in
        let* _ := log (Read fd count (-1)) in
        ret (-1, buf)
    end
  else
    let* _ := set_errno EBADF in
    let* _ := log (Read fd count (-1)) in
    ret (-1, buf).

(** daemon(0, 0), by its return value: 0, or -1 with [errno] set. *)
Definition sys_daemon (k : outcome unit) : OS Z :=
  match k with
  | Done _ => let* _ := log (Daemon 0) in ret 0
  | Fail e => let* _ := set_errno e in
              let* _ := log (Daemon (-1)) in ret (-1)
  end.

(** system(3).  [main] discards its result; [errno] is left as it was. *)
Definition system (command : string) : OS unit := log (System command).

(** fprintf(stderr, ...) *)
Definition fprintf_stderr (text : string) : OS unit := log (Stderr text).

(** ** struct input_event *)

Record input_event := { type : Z; code : Z; value : Z }.

Definition sizeof_input_event : nat := (sizeof_timeval + 8)%nat.

Definition byte_at (buf : list byte) (i : nat) : Z :=
  Z.of_N (Byte.to_N (nth i buf x00)).

Definition u16_at (buf : list byte) (i : nat) : Z :=
  if big_endian
  then 256 * byte_at buf i + byte_at buf (i + 1)
  else byte_at buf i + 256 * byte_at buf (i + 1).

Definition u32_at (buf : list byte) (i : nat) : Z :=
  if big_endian
  then 65536 * u16_at buf i + u16_at buf (i + 2)
  else u16_at buf i + 65536 * u16_at buf (i + 2).

(** Reading of a 32-bit pattern as [__s32]. *)
Definition s32 (u : Z) : Z := if u <? 2 ^ 31 then u else u - 2 ^ 32.

(** The fields the program reads, at their offsets in the buffer. *)
Definition load_event (buf : list byte) : input_event :=
  {| type := u16_at buf sizeof_timeval;
     code := u16_at buf (sizeof_timeval + 2);
     value := s32 (u32_at buf (sizeof_timeval + 4)) |}.

(** ** The keygrabber *)

Definition EV_ERROR : Z := 0x00010000.
Definition EV_UP : Z := 0x00020000.
Definition EV_HOLD : Z := 0x00040000.

Definition EV_EBLOCK : Z := 0x0001.
Definition EV_EFILE : Z := 0x0002.

Definition EV_HASFLAG (c flag : Z) : Z := Z.land c flag.
Definition EV_GETCODE (c : Z) : Z := Z.land c 0x0000ffff.
Definition EV_GETERROR (c : Z) : Z := EV_GETCODE c.
Definition EV_FAIL (c : Z) : Z := EV_HASFLAG c EV_ERROR.

(** Conversion to [uint32_t]. *)
Definition uint32 (x : Z) : Z := x mod 2 ^ 32.

(** A C condition: non-zero is true. *)
Definition truthy (x : Z) : bool := negb (x =? 0).

Definition ev_open (device : string) (k : outcome Z) : OS Z :=
  sys_open device k.

(** One call of [ev_read] meets [stale], the bytes that the automatic
    variable [ev] happens to hold, and [delivered], the answer of the
    device to the read. *)
Record reading := { stale : list byte; delivered : outcome (list byte) }.

Definition ev_read (fd : Z) (r : reading) : OS Z :=
  let* got := sys_read fd (stale r) sizeof_input_event (delivered r) in
  let ev := load_event (snd got) in
  if fst got <? 1 then
    let* e := get_errno in
    if (e =? EINTR) || (e =? EAGAIN) || (e =? EWOULDBLOCK) then
      ret (uint32 (Z.lor EV_EBLOCK EV_ERROR))
    else
      let* _ := sys_close fd in
      ret (uint32 (Z.lor EV_EFILE EV_ERROR))
  else if type ev =? EV_KEY then
    if value ev =? 1 then
      ret (uint32 (code ev))
    else if value ev =? 2 then
      ret (uint32 (Z.lor (code ev) EV_HOLD))
    else
      ret (uint32 (Z.lor (code ev) EV_UP))
  else
    ret (uint32 (Z.lor EV_EBLOCK EV_ERROR)).

Definition ev_close (fd : Z) : OS unit :=
  let* _ := sys_close fd in ret tt.

(** ** The dispatch loop *)

Inductive loop_state := Running | Terminated.

(** The part of the loop body after [ev_read]: the test of the error flag
    ([continue] and [break]) and the [switch] on the key code. *)
Definition dispatch (ev : Z) : OS loop_state :=
  if truthy (EV_FAIL ev) then
    if EV_GETERROR ev =? EV_EBLOCK then ret Running
    else ret Terminated
  else if EV_GETCODE ev =? 225 then
    let* _ := (if truthy (EV_HASFLAG ev EV_UP)
               then system "setbacklight %+10" else ret tt) in
    ret Running
  else if EV_GETCODE ev =? 224 then
    let* _ := (if truthy (EV_HASFLAG ev EV_UP)
               then system "setbacklight %-10" else ret tt) in
    ret Running
  else ret Running.

(** One turn of [while (1)]. *)
Definition iteration (keygrabber : Z) (r : reading) : OS loop_state :=
  let* ev := ev_read keygrabber r in
  dispatch ev.

(** The loop against the readings the device will produce, in order.
    Each turn consumes one; once there is none left the process sleeps
    in read(2), still [Running]. *)
Fixpoint loop (keygrabber : Z) (script : list reading) : OS loop_state :=
  match script with
  | [] => ret Running
  | r :: script' =>
      let* s := iteration keygrabber r in
      match s with
      | Running => loop keygrabber script'
      | Terminated => ret Terminated
      end
  end.

(** ** main *)

Definition newline : string := String "010"%char EmptyString.

Definition usage_message : string :=
  "usage: managerui /dev/input/eventX" +:+ newline.
Definition open_message : string := "Cannot open event file" +:+ newline.
Definition daemon_message : string :=
  "Cannot fork into background" +:+ newline.

(** The answers of the environment to one run of the program. *)
Record environment := {
  env_open : outcome Z;
  env_daemon : outcome unit;
  env_reads : list reading
}.

(** [main] returns its exit status, or nothing when the process is still
    waiting in the loop after the last reading. [argc] is the length of
    [argv]. *)
Definition main (argv : list string) (env : environment) : OS (option Z) :=
  let argc := Z.of_nat (length argv) in
  if argc <? 2 then
    let* _ := fprintf_stderr usage_message in
    ret (Some EXIT_FAILURE)
  else
    let* keygrabber := ev_open (nth 1 argv EmptyString) (env_open env) in
    if keygrabber <? 0 then
      let* _ := fprintf_stderr open_message in
      ret (Some EXIT_FAILURE)
    else
      let* d := sys_daemon (env_daemon env) in
      if negb (d =? 0) then
        let* _ := fprintf_stderr daemon_message in
        ret (Some EXIT_FAILURE)
      else
        let* s := loop keygrabber (env_reads env) in
        match s with
        | Running => ret None
        | Terminated =>
            let* _ := ev_close keygrabber in
            ret (Some EXIT_SUCCESS)
        end.

(** ** The decoded event

    The reading of the packed integer that the comment above [ev_read]
    gives and that [main] applies: the error flag first, then release,
    then hold, and a plain code is a key press. *)
Inductive DecodedEvent :=
| Pressed (c : Z)
| Held (c : Z)
| Released (c : Z)
| WouldBlock
| Fatal.

Definition decoded (ev : Z) : DecodedEvent :=
  if truthy (EV_FAIL ev) then
    if EV_GETERROR ev =? EV_EBLOCK then WouldBlock else Fatal
  else if truthy (EV_HASFLAG ev EV_UP) then Released (EV_GETCODE ev)
  else if truthy (EV_HASFLAG ev EV_HOLD) then Held (EV_GETCODE ev)
  else Pressed (EV_GETCODE ev).

(** The commands a run has handed to system(3), oldest first. *)
Definition commands (t : list call) : list string :=
  flat_map (fun c => match c with System s => [s] | _ => [] end) t.

(** The calls made between the world [w] and the later world [w']. *)
Definition since (w w' : world) : list call :=
  skipn (length (trace w)) (trace w').

(** The world [w] after the further calls [cs]. *)
Definition logged (w : world) (cs : list call) : world :=
  {| fds := fds w; errno := errno w; trace := trace w ++ cs |}.

(** The error numbers on which [ev_read] asks for another try. *)
Definition transient (e : Z) : bool :=
  (e =? EINTR) || (e =? EAGAIN) || (e =? EWOULDBLOCK).

(** The dispatch table as the specification words it: the command, if
    any, that a decoded event calls for. *)
Definition dispatch_table (d : DecodedEvent) : list string :=
  match d with
  | Released c =>
      if c =? 224 then ["setbacklight %-10"]
      else if c =? 225 then ["setbacklight %+10"]
      else []
  | _ => []
  end.

(** The state in which the loop is after an event, as the specification
    words it: only [Fatal] ends it. *)
Definition next_state (d : DecodedEvent) : loop_state :=
  match d with
  | Fatal => Terminated
  | _ => Running
  end.

(** The world in which the loop starts: the device is open and the
    process has detached. *)
Definition started (path : string) (fd : Z) (w : world) : world :=
  {| fds := fds w ∪ {[fd]}; errno := errno w;
     trace := trace w ++ [Open path fd; Daemon 0] |}.

(** The flag half of the packed integer. *)
Definition flags (ev : Z) : Z := Z.land ev 0xffff0000.

(** The invariant of a decoded event on the packed integer: a 32-bit
    value made of a 16-bit code and at most one flag, the flag and the
    status determining each other, and with the error flag a code that
    is one of the two error tags. *)
Definition invariant (ev : Z) : Prop :=
  0 <= ev < 2 ^ 32 /\
  ev = flags ev + EV_GETCODE ev /\
  0 <= EV_GETCODE ev < 2 ^ 16 /\
  match decoded ev with
  | Pressed c => flags ev = 0 /\ c = EV_GETCODE ev
  | Held c => flags ev = EV_HOLD /\ c = EV_GETCODE ev
  | Released c => flags ev = EV_UP /\ c = EV_GETCODE ev
  | WouldBlock => flags ev = EV_ERROR /\ EV_GETERROR ev = EV_EBLOCK
  | Fatal => flags ev = EV_ERROR /\ EV_GETERROR ev = EV_EFILE
  end.

(** The range of [__u16]. *)
Definition u16 (c : Z) : Prop := 0 <= c < 65536.

(** The shapes of the values that [ev_read] returns. *)
Definition packed (ev : Z) : Prop :=
  ev = uint32 (Z.lor EV_EBLOCK EV_ERROR) \/
  ev = uint32 (Z.lor EV_EFILE EV_ERROR) \/
  exists c, u16 c /\
    (ev = uint32 c \/ ev = uint32 (Z.lor c EV_HOLD) \/
     ev = uint32 (Z.lor c EV_UP)).

(** Building the bytes of a record, for examples: a zero timestamp and
    the three fields in the byte order of the platform. *)
Definition byte_of (x : Z) : byte :=
  match Byte.of_N (Z.to_N (x mod 256)) with Some b => b | None => x00 end.

Definition put16 (x : Z) : list byte :=
  if big_endian then [byte_of (x / 256); byte_of x]
  else [byte_of x; byte_of (x / 256)].

Definition put32 (x : Z) : list byte :=
  if big_endian then put16 (x / 65536) ++ put16 x
  else put16 x ++ put16 (x / 65536).

Definition record_bytes (ty c v : Z) : list byte :=
  repeat x00 sizeof_timeval ++ put16 ty ++ put16 c ++ put32 v.

(** ** Readings by kind *)

(** The bytes a reading delivers; none when the read fails. *)
Definition payload (r : reading) : list byte :=
  match delivered r with
  | Done data => data
  | Fail _ => []
  end.

(** A reading that fills the whole of [ev]. *)
Definition whole (r : reading) : bool :=
  match delivered r with
  | Done data => (sizeof_input_event <=? length data)%nat
  | Fail _ => false
  end.

(** A reading that brings nothing: the end of the file, or one of the
    errors on which [ev_read] asks for another try. *)
Definition idle (r : reading) : bool :=
  match delivered r with
  | Done [] => true
  | Done (_ :: _) => false
  | Fail e => transient e
  end.

(** What [ev_read] returns for the record [ev] once the read has brought
    at least one byte (lines 89 to 98 of main.c). *)
Definition pack (ev : input_event) : Z :=
  if type ev =? EV_KEY then
    if value ev =? 1 then uint32 (code ev)
    else if value ev =? 2 then uint32 (Z.lor (code ev) EV_HOLD)
    else uint32 (Z.lor (code ev) EV_UP)
  else uint32 (Z.lor EV_EBLOCK EV_ERROR).

(** The command that one turn of the loop runs for the record [ev]:
    [ev_read] followed by the [switch] of [main]. *)
Definition command_of (ev : input_event) : list string :=
  if type ev =? EV_KEY then
    if (value ev =? 1) || (value ev =? 2) then []
    else if code ev =? 225 then ["setbacklight %+10"]
    else if code ev =? 224 then ["setbacklight %-10"]
    else []
  else [].

(** The calls of one turn of the loop on a whole reading. *)
Definition turn_calls (fd : Z) (r : reading) : list call :=
  Read fd sizeof_input_event (Z.of_nat sizeof_input_event)
  :: map System (command_of (load_event (payload r))).

End Program.

(** ** A concrete machine

    Linux on x86-64, a process that holds its three standard streams, and
    an input device that the kernel hands out as descriptor 3. *)

Definition at_start : world :=
  {| fds := {[0; 1; 2]}; errno := 0; trace := [] |}.

Definition device_open : world :=
  {| fds := {[0; 1; 2; 3]}; errno := 0; trace := [] |}.

(** A record delivered whole: its class, code and value. *)
Definition full (ty c v : Z) : reading :=
  {| stale := []; delivered := Done (record_bytes ty c v) |}.

(** A read that delivers only the first 8 bytes of a sync record, into a
    buffer that still holds a release of key 225. *)
Definition short_read : reading :=
  {| stale := record_bytes 1 225 0;
     delivered := Done (firstn 8 (record_bytes 0 0 0)) |}.

(** The device is gone: read fails with [ENODEV] (19). *)
Definition unplugged : reading := {| stale := []; delivered := Fail 19 |}.

(** The scripted sequence of the specification: press, two repeats and
    release of key 225, a sync record, press and release of key 999, and
    the fatal error. *)
Definition scenario : list reading :=
  [full 1 225 1; full 1 225 2; full 1 225 2; full 1 225 0; full 0 0 0;
   full 1 999 1; full 1 999 0; unplugged].

Definition scenario_run : environment :=
  {| env_open := Done 3; env_daemon := Done tt; env_reads := scenario |}.

Definition command_line : list string := ["managerui"; "/dev/input/event3"].

(** The same process after a read that a signal interrupted: [errno] is
    [EINTR] (4). *)
Definition interrupted : world :=
  {| fds := {[0; 1; 2; 3]}; errno := 4; trace := [] |}.

(** The end of the file: the read succeeds with no byte. *)
Definition end_of_file : reading := {| stale := []; delivered := Done [] |}.

(** A read that a signal interrupts. *)
Definition interrupt : reading := {| stale := []; delivered := Fail 4 |}.

(** A run in which daemon fails for want of memory ([ENOMEM], 12). *)
Definition daemon_fails : environment :=
  {| env_open := Done 3; env_daemon := Fail 12; env_reads := [] |}.

(** Whole records only: press and release of key 225, a sync record, and
    a release of key 224. *)
Definition keys : list reading :=
  [full 1 225 1; full 1 225 0; full 0 0 0; full 1 224 0].

Definition keys_run : environment :=
  {| env_open := Done 3; env_daemon := Done tt; env_reads := keys |}.

(** ** Properties *)

Section Properties.
Context `{Platform}.

(** *** Unfolding the monad *)

Ltac os :=
  unfold ev_close, ev_open, sys_open, sys_close, sys_read, sys_daemon,
    system, fprintf_stderr, bind, ret, log, get_errno, set_errno,
    fd_open, fd_release, is_open in *;
  cbn [fst snd fds errno trace stale delivered] in *.

(** *** Sixteen-bit codes under the flag masks *)

Lemma byte_at_range buf i : 0 <= byte_at buf i < 256.
Proof.
  unfold byte_at. pose proof (Byte.to_N_bounded (nth i buf x00)). lia.
Qed.

Lemma u16_at_range buf i : u16 (u16_at buf i).
Proof.
  unfold u16, u16_at.
  pose proof (byte_at_range buf i). pose proof (byte_at_range buf (i + 1)).
  destruct big_endian; lia.
Qed.

Lemma code_range buf : u16 (code (load_event buf)).
Proof. apply u16_at_range. Qed.

Lemma u16_land_low c : u16 c -> Z.land c 65535 = c.
Proof.
  intros Hc. change 65535 with (Z.ones 16).
  rewrite Z.land_ones by lia. apply Z.mod_small. exact Hc.
Qed.

Lemma u16_land_high c m : u16 c -> Z.land 65535 m = 0 -> Z.land c m = 0.
Proof.
  intros Hc Hm. rewrite <- (u16_land_low c Hc), <- Z.land_assoc, Hm.
  apply Z.land_0_r.
Qed.

Lemma u16_land_word c : u16 c -> Z.land c (Z.ones 32) = c.
Proof.
  intros Hc. rewrite Z.land_ones by lia. apply Z.mod_small.
  unfold u16 in Hc. change (2 ^ 32) with 4294967296. lia.
Qed.

(** A code with one flag merged in: the masks take it apart again. *)
Lemma land_code_flag c f m :
  u16 c -> Z.land 65535 m = 0 -> Z.land (Z.lor c f) m = Z.land f m.
Proof.
  intros Hc Hm. rewrite Z.land_lor_distr_l, (u16_land_high c m Hc Hm).
  apply Z.lor_0_l.
Qed.

Lemma getcode_code_flag c f :
  u16 c -> Z.land f 65535 = 0 -> EV_GETCODE (Z.lor c f) = c.
Proof.
  intros Hc Hf. unfold EV_GETCODE. change 0x0000ffff with 65535.
  rewrite Z.land_lor_distr_l, Hf, (u16_land_low c Hc). apply Z.lor_0_r.
Qed.

Lemma uint32_code_flag c f :
  u16 c -> Z.land f (Z.ones 32) = f -> uint32 (Z.lor c f) = Z.lor c f.
Proof.
  intros Hc Hf. unfold uint32. rewrite <- Z.land_ones by lia.
  rewrite Z.land_lor_distr_l, Hf, (u16_land_word c Hc). reflexivity.
Qed.

Lemma uint32_code c : u16 c -> uint32 c = c.
Proof.
  intros Hc. rewrite <- (Z.lor_0_r c) at 1.
  rewrite uint32_code_flag by (exact Hc || reflexivity). apply Z.lor_0_r.
Qed.

Lemma decoded_pressed c : u16 c -> decoded (uint32 c) = Pressed c.
Proof.
  intros Hc. rewrite (uint32_code c Hc). unfold decoded, EV_FAIL, EV_HASFLAG.
  rewrite !(u16_land_high c) by (exact Hc || reflexivity).
  cbn [truthy Z.eqb negb]. unfold EV_GETCODE. change 0x0000ffff with 65535.
  rewrite (u16_land_low c Hc). reflexivity.
Qed.

Lemma decoded_held c :
  u16 c -> decoded (uint32 (Z.lor c EV_HOLD)) = Held c.
Proof.
  intros Hc. rewrite uint32_code_flag by (exact Hc || reflexivity).
  unfold decoded, EV_FAIL, EV_GETERROR, EV_HASFLAG.
  rewrite !land_code_flag by (exact Hc || reflexivity).
  rewrite getcode_code_flag by (exact Hc || reflexivity). reflexivity.
Qed.

Lemma decoded_released c :
  u16 c -> decoded (uint32 (Z.lor c EV_UP)) = Released c.
Proof.
  intros Hc. rewrite uint32_code_flag by (exact Hc || reflexivity).
  unfold decoded, EV_FAIL, EV_GETERROR, EV_HASFLAG.
  rewrite !land_code_flag by (exact Hc || reflexivity).
  rewrite getcode_code_flag by (exact Hc || reflexivity). reflexivity.
Qed.

Lemma decoded_eblock : decoded (uint32 (Z.lor EV_EBLOCK EV_ERROR)) = WouldBlock.
Proof. reflexivity. Qed.

Lemma decoded_efile : decoded (uint32 (Z.lor EV_EFILE EV_ERROR)) = Fatal.
Proof. reflexivity. Qed.

(** *** Worlds *)

Lemma not_elem_of_released (fd : Z) (open : gset Z) : fd ∉ open ∖ {[fd]}.
Proof. rewrite elem_of_difference, elem_of_singleton. tauto. Qed.

Lemma logged_nil w : logged w [] = w.
Proof. destruct w. unfold logged. cbn. rewrite app_nil_r. reflexivity. Qed.

Lemma logged_logged w cs cs' : logged (logged w cs) cs' = logged w (cs ++ cs').
Proof. unfold logged. cbn. rewrite app_assoc. reflexivity. Qed.

Lemma since_logged w cs : since w (logged w cs) = cs.
Proof. unfold since, logged. cbn. apply drop_app_length. Qed.

(** *** The switch of the loop against the dispatch table *)

Lemma dispatch_decoded ev w :
  dispatch ev w =
  (next_state (decoded ev),
   logged w (map System (dispatch_table (decoded ev)))).
Proof.
  unfold dispatch, decoded.
  destruct (truthy (EV_FAIL ev)).
  - destruct (EV_GETERROR ev =? EV_EBLOCK); os; cbn; now rewrite logged_nil.
  - destruct (truthy (EV_HASFLAG ev EV_UP)); cbn [dispatch_table next_state].
    + destruct (Z.eqb_spec (EV_GETCODE ev) 225) as [E|E].
      * rewrite E. reflexivity.
      * destruct (EV_GETCODE ev =? 224); os; cbn; [reflexivity|].
        now rewrite logged_nil.
    + assert (forall s, (if truthy (EV_HASFLAG ev EV_HOLD)
                         then Held (EV_GETCODE ev)
                         else Pressed (EV_GETCODE ev)) = s ->
                        dispatch_table s = [] /\ next_state s = Running) as Hs.
      { intros s <-. destruct (truthy (EV_HASFLAG ev EV_HOLD)); now split. }
      destruct (Hs _ eq_refl) as [-> ->].
      destruct (EV_GETCODE ev =? 225); [|destruct (EV_GETCODE ev =? 224)];
        os; cbn; now rewrite logged_nil.
Qed.

(** *** What [ev_read] does on a record read in full *)

Lemma load_event_app data rest :
  length data = sizeof_input_event ->
  load_event (data ++ rest) = load_event data.
Proof.
  intros Hlen. unfold sizeof_input_event in Hlen.
  unfold load_event, u32_at, u16_at, byte_at.
  rewrite !(app_nth1 data rest) by lia. reflexivity.
Qed.

Lemma ev_read_full fd old data w :
  fd ∈ fds w ->
  length data = sizeof_input_event ->
  ev_read fd {| stale := old; delivered := Done data |} w =
  (let ev := load_event data in
   if type ev =? EV_KEY then
     if value ev =? 1 then uint32 (code ev)
     else if value ev =? 2 then uint32 (Z.lor (code ev) EV_HOLD)
     else uint32 (Z.lor (code ev) EV_UP)
   else uint32 (Z.lor EV_EBLOCK EV_ERROR),
   logged w [Read fd sizeof_input_event (Z.of_nat sizeof_input_event)]).
Proof.
  intros Hfd Hlen. unfold ev_read. os.
  rewrite (bool_decide_eq_true_2 _ Hfd). cbn [fst snd].
  rewrite firstn_all2 by lia. rewrite Hlen.
  rewrite (load_event_app data _ Hlen).
  assert ((Z.of_nat sizeof_input_event <? 1) = false) as ->.
  { apply Z.ltb_ge. unfold sizeof_input_event. lia. }
  cbv zeta.
  destruct (type (load_event data) =? EV_KEY); [|reflexivity].
  destruct (value (load_event data) =? 1); [reflexivity|].
  destruct (value (load_event data) =? 2); reflexivity.
Qed.

Lemma ev_read_full_decoded fd old data w :
  fd ∈ fds w ->
  length data = sizeof_input_event ->
  decoded (fst (ev_read fd {| stale := old; delivered := Done data |} w)) =
  (let ev := load_event data in
   if type ev =? EV_KEY then
     if value ev =? 1 then Pressed (code ev)
     else if value ev =? 2 then Held (code ev)
     else Released (code ev)
   else WouldBlock).
Proof.
  intros Hfd Hlen. rewrite (ev_read_full fd old data w Hfd Hlen).
  cbn [fst]. cbv zeta. pose proof (code_range data) as Hc.
  destruct (type (load_event data) =? EV_KEY); [|apply decoded_eblock].
  destruct (value (load_event data) =? 1); [now apply decoded_pressed|].
  destruct (value (load_event data) =? 2);
    [now apply decoded_held | now apply decoded_released].
Qed.

Lemma iteration_full fd old data w :
  fd ∈ fds w ->
  length data = sizeof_input_event ->
  let r := {| stale := old; delivered := Done data |} in
  let d := decoded (fst (ev_read fd r w)) in
  iteration fd r w =
  (next_state d,
   logged w (Read fd sizeof_input_event (Z.of_nat sizeof_input_event)
             :: map System (dispatch_table d))).
Proof.
  intros Hfd Hlen r d. unfold iteration, bind.
  subst d. destruct (ev_read fd r w) as [ev w'] eqn:E.
  rewrite dispatch_decoded. cbn [fst].
  assert (w' = snd (ev_read fd r w)) as -> by now rewrite E.
  subst r. rewrite (ev_read_full fd old data w Hfd Hlen). cbn [snd].
  now rewrite logged_logged.
Qed.

(** C2: a key-event record read in full decodes by its value: 1 is
    [Pressed], 2 is [Held], 0 is [Released], each with the code of the
    record. *)
Theorem C2_key_values_decoded fd old data w :
  fd ∈ fds w ->
  length data = sizeof_input_event ->
  type (load_event data) = EV_KEY ->
  let ev := fst (ev_read fd {| stale := old; delivered := Done data |} w) in
  (value (load_event data) = 1 -> decoded ev = Pressed (code (load_event data))) /\
  (value (load_event data) = 2 -> decoded ev = Held (code (load_event data))) /\
  (value (load_event data) = 0 -> decoded ev = Released (code (load_event data))).
Proof.
  intros Hfd Hlen Hty ev. subst ev.
  rewrite (ev_read_full_decoded fd old data w Hfd Hlen). cbv zeta.
  rewrite Hty, Z.eqb_refl.
  repeat split; intros ->; reflexivity.
Qed.

(** C3, as the code has it: a key-event record read in full whose value
    is none of 0, 1, 2 decodes as [Released] with the code of the record,
    like value 0.  The loop goes on, and the record sets off the command
    of the dispatch table when its code is 224 or 225. *)
Theorem C3_unlisted_values_release fd old data w :
  fd ∈ fds w ->
  length data = sizeof_input_event ->
  type (load_event data) = EV_KEY ->
  value (load_event data) <> 0 ->
  value (load_event data) <> 1 ->
  value (load_event data) <> 2 ->
  let r := {| stale := old; delivered := Done data |} in
  let c := code (load_event data) in
  decoded (fst (ev_read fd r w)) = Released c /\
  fst (iteration fd r w) = Running /\
  commands (since w (snd (iteration fd r w))) =
    (if c =? 224 then ["setbacklight %-10"]
     else if c =? 225 then ["setbacklight %+10"]
     else []).
Proof.
  intros Hfd Hlen Hty _ H1 H2 r c.
  assert (decoded (fst (ev_read fd r w)) = Released c) as Hd.
  { subst r. rewrite (ev_read_full_decoded fd old data w Hfd Hlen). cbv zeta.
    rewrite Hty, Z.eqb_refl.
    destruct (Z.eqb_spec (value (load_event data)) 1); [contradiction|].
    destruct (Z.eqb_spec (value (load_event data)) 2); [contradiction|].
    reflexivity. }
  split; [exact Hd|].
  subst r. rewrite (iteration_full fd old data w Hfd Hlen). cbv zeta.
  rewrite Hd. cbn [fst snd next_state dispatch_table].
  split; [reflexivity|]. rewrite since_logged.
  destruct (c =? 224); [reflexivity|]. destruct (c =? 225); reflexivity.
Qed.

(** C5: a record read in full whose class is not the key class decodes
    as [WouldBlock]; the loop goes on, and the turn makes no call besides
    its read. *)
Theorem C5_other_classes_ignored fd old data w :
  fd ∈ fds w ->
  length data = sizeof_input_event ->
  type (load_event data) <> EV_KEY ->
  let r := {| stale := old; delivered := Done data |} in
  decoded (fst (ev_read fd r w)) = WouldBlock /\
  fst (iteration fd r w) = Running /\
  since w (snd (iteration fd r w)) =
    [Read fd sizeof_input_event (Z.of_nat sizeof_input_event)].
Proof.
  intros Hfd Hlen Hty r.
  assert (decoded (fst (ev_read fd r w)) = WouldBlock) as Hd.
  { subst r. rewrite (ev_read_full_decoded fd old data w Hfd Hlen). cbv zeta.
    destruct (Z.eqb_spec (type (load_event data)) EV_KEY); [contradiction|].
    reflexivity. }
  split; [exact Hd|].
  subst r. rewrite (iteration_full fd old data w Hfd Hlen). cbv zeta.
  rewrite Hd. cbn [fst snd next_state dispatch_table map].
  split; [reflexivity|]. apply since_logged.
Qed.

(** *** What [ev_read] does in general *)

Lemma sys_read_open fd buf count k w :
  fd ∈ fds w ->
  sys_read fd buf count k w =
  match k with
  | Done data =>
      let got := firstn count data in
      let n := Z.of_nat (length got) in
      ((n, got ++ skipn (length got) buf), logged w [Read fd count n])
  | Fail e =>
      ((-1, buf),
       {| fds := fds w; errno := e;
          trace := trace w ++ [Read fd count (-1)] |})
  end.
Proof.
  intros Hfd. unfold sys_read. os. rewrite (bool_decide_eq_true_2 _ Hfd).
  destruct k; reflexivity.
Qed.

Lemma sys_close_open fd w :
  fd ∈ fds w ->
  sys_close fd w =
  (0, {| fds := fds w ∖ {[fd]}; errno := errno w;
         trace := trace w ++ [Close fd 0] |}).
Proof.
  intros Hfd. unfold sys_close. os. now rewrite (bool_decide_eq_true_2 _ Hfd).
Qed.

Lemma sys_close_closed fd w :
  fd ∉ fds w ->
  sys_close fd w =
  (-1, {| fds := fds w; errno := EBADF;
          trace := trace w ++ [Close fd (-1)] |}).
Proof.
  intros Hfd. unfold sys_close. os. now rewrite (bool_decide_eq_false_2 _ Hfd).
Qed.

(** [ev_read] with the monad unfolded: the read, then the branches. *)
Lemma ev_read_eq fd r w :
  ev_read fd r w =
  let got := sys_read fd (stale r) sizeof_input_event (delivered r) w in
  let n := fst (fst got) in
  let ev := load_event (snd (fst got)) in
  let w1 := snd got in
  if n <? 1 then
    if transient (errno w1)
    then (uint32 (Z.lor EV_EBLOCK EV_ERROR), w1)
    else (uint32 (Z.lor EV_EFILE EV_ERROR), snd (sys_close fd w1))
  else
    (if type ev =? EV_KEY then
       if value ev =? 1 then uint32 (code ev)
       else if value ev =? 2 then uint32 (Z.lor (code ev) EV_HOLD)
       else uint32 (Z.lor (code ev) EV_UP)
     else uint32 (Z.lor EV_EBLOCK EV_ERROR), w1).
Proof.
  unfold ev_read, bind, transient. cbv zeta.
  destruct (sys_read fd (stale r) sizeof_input_event (delivered r) w)
    as [[n buf] w1].
  cbn [fst snd]. destruct (n <? 1).
  - unfold get_errno.
    destruct ((errno w1 =? EINTR) || (errno w1 =? EAGAIN)
              || (errno w1 =? EWOULDBLOCK)); [reflexivity|].
    destruct (sys_close fd w1). reflexivity.
  - destruct (type (load_event buf) =? EV_KEY); [|reflexivity].
    destruct (value (load_event buf) =? 1); [reflexivity|].
    destruct (value (load_event buf) =? 2); reflexivity.
Qed.

Lemma ev_read_packed fd r w : packed (fst (ev_read fd r w)).
Proof.
  unfold ev_read, bind.
  destruct (sys_read fd (stale r) sizeof_input_event (delivered r) w)
    as [[n buf] w1].
  cbn [fst snd]. pose proof (code_range buf) as Hc.
  destruct (n <? 1).
  - unfold get_errno.
    destruct ((errno w1 =? EINTR) || (errno w1 =? EAGAIN)
              || (errno w1 =? EWOULDBLOCK)).
    + left. reflexivity.
    + right. left. destruct (sys_close fd w1). reflexivity.
  - destruct (type (load_event buf) =? EV_KEY); [|left; reflexivity].
    right. right. exists (code (load_event buf)). split; [exact Hc|].
    destruct (value (load_event buf) =? 1); [left; reflexivity|].
    destruct (value (load_event buf) =? 2); [right; left|right; right];
      reflexivity.
Qed.

Lemma flags_code_flag c f :
  u16 c -> flags (Z.lor c f) = flags f.
Proof. intros Hc. unfold flags. now apply land_code_flag. Qed.

Lemma word_code_flag c f :
  u16 c -> Z.land f (Z.ones 32) = f -> 0 <= Z.lor c f < 2 ^ 32.
Proof.
  intros Hc Hf. rewrite <- (uint32_code_flag c f Hc Hf).
  apply Z.mod_pos_bound. reflexivity.
Qed.

Lemma sum_code_flag c f :
  u16 c -> Z.land c f = 0 -> Z.lor c f = f + c.
Proof.
  intros Hc Hf. pose proof (Z.add_lor_land c f) as E. rewrite Hf in E. lia.
Qed.

Lemma invariant_packed ev : packed ev -> invariant ev.
Proof.
  intros [-> | [-> | (c & Hc & [-> | [-> | ->]])]].
  - repeat split; discriminate.
  - repeat split; discriminate.
  - unfold invariant. rewrite (decoded_pressed c Hc), (uint32_code c Hc).
    unfold flags, EV_GETCODE. change 0x0000ffff with 65535.
    rewrite (u16_land_high c) by (exact Hc || reflexivity).
    rewrite (u16_land_low c Hc). unfold u16 in Hc.
    change (2 ^ 32) with 4294967296. change (2 ^ 16) with 65536.
    repeat split; lia.
  - unfold invariant. rewrite (decoded_held c Hc).
    rewrite uint32_code_flag by (exact Hc || reflexivity).
    rewrite (flags_code_flag c _ Hc).
    rewrite getcode_code_flag by (exact Hc || reflexivity).
    pose proof (word_code_flag c EV_HOLD Hc eq_refl).
    rewrite sum_code_flag by (exact Hc || now apply u16_land_high).
    change (flags EV_HOLD) with EV_HOLD. unfold u16 in Hc.
    change (2 ^ 16) with 65536.
    rewrite sum_code_flag in * by (exact Hc || now apply u16_land_high).
    repeat split; lia.
  - unfold invariant. rewrite (decoded_released c Hc).
    rewrite uint32_code_flag by (exact Hc || reflexivity).
    rewrite (flags_code_flag c _ Hc).
    rewrite getcode_code_flag by (exact Hc || reflexivity).
    pose proof (word_code_flag c EV_UP Hc eq_refl).
    rewrite sum_code_flag by (exact Hc || now apply u16_land_high).
    change (flags EV_UP) with EV_UP. unfold u16 in Hc.
    change (2 ^ 16) with 65536.
    rewrite sum_code_flag in * by (exact Hc || now apply u16_land_high).
    repeat split; lia.
Qed.

(** C8: every value that [ev_read] returns satisfies the invariant of a
    decoded event: it fits 32 bits, is a 16-bit code plus at most one of
    the three flags, the flag and the status determine each other
    ([Pressed] is no flag), and under the error flag the code is the tag
    of [WouldBlock] or of [Fatal]. *)
Theorem C8_decoded_event_invariant fd r w :
  invariant (fst (ev_read fd r w)).
Proof. apply invariant_packed, ev_read_packed. Qed.

Lemma not_fatal_packed ev :
  packed ev -> ev <> uint32 (Z.lor EV_EFILE EV_ERROR) -> decoded ev <> Fatal.
Proof.
  intros [-> | [-> | (c & Hc & [-> | [-> | ->]])]] Hne;
    [discriminate | contradiction | | | ].
  - now rewrite decoded_pressed.
  - now rewrite decoded_held.
  - now rewrite decoded_released.
Qed.

(** On an open descriptor [ev_read] makes its read and then either
    returns [Fatal], having closed the descriptor, or returns something
    else and leaves the descriptor table alone. *)
Lemma ev_read_open fd r w :
  fd ∈ fds w ->
  exists n e,
    (decoded (fst (ev_read fd r w)) = Fatal /\
     snd (ev_read fd r w) =
       {| fds := fds w ∖ {[fd]}; errno := e;
          trace := trace w ++ [Read fd sizeof_input_event n; Close fd 0] |})
    \/
    (decoded (fst (ev_read fd r w)) <> Fatal /\
     snd (ev_read fd r w) =
       {| fds := fds w; errno := e;
          trace := trace w ++ [Read fd sizeof_input_event n] |}).
Proof.
  intros Hfd. pose proof (ev_read_packed fd r w) as Hp.
  rewrite ev_read_eq in *. rewrite (sys_read_open _ _ _ _ _ Hfd) in *.
  cbv zeta in *.
  assert (forall n e,
    snd (sys_close fd {| fds := fds w; errno := e;
                         trace := trace w ++ [Read fd sizeof_input_event n] |})
    = {| fds := fds w ∖ {[fd]}; errno := e;
         trace := trace w ++ [Read fd sizeof_input_event n; Close fd 0] |})
    as Hclose.
  { intros n e. rewrite sys_close_open by exact Hfd. cbn [snd fds errno trace].
    now rewrite <- app_assoc. }
  destruct (delivered r) as [data|e]; cbn [fst snd logged errno] in *.
  - exists (Z.of_nat (length (take sizeof_input_event data))), (errno w).
    destruct (_ <? 1).
    + destruct (transient (errno w)); cbn [fst snd].
      * right. rewrite decoded_eblock. split; [discriminate|reflexivity].
      * left. rewrite decoded_efile. split; [reflexivity|apply Hclose].
    + right. cbn [fst snd] in *. split; [|reflexivity].
      apply not_fatal_packed; [exact Hp|].
      match goal with |- context [load_event ?b] =>
        pose proof (code_range b) as Hc; set (ev := load_event b) in * end.
      assert (forall c f, u16 c -> Z.land f (Z.ones 32) = f ->
                Z.land f EV_ERROR = 0 ->
                uint32 (Z.lor c f) <> uint32 (Z.lor EV_EFILE EV_ERROR)) as Hk.
      { intros c f Hu Hf Hf' E. rewrite (uint32_code_flag c f Hu Hf) in E.
        apply (f_equal (fun x => Z.land x EV_ERROR)) in E.
        rewrite land_code_flag in E by (exact Hu || reflexivity).
        rewrite Hf' in E. discriminate. }
      destruct (type ev =? EV_KEY); [|discriminate].
      destruct (value ev =? 1).
      { rewrite <- (Z.lor_0_r (code ev)). now apply Hk. }
      destruct (value ev =? 2); now apply Hk.
  - exists (-1), e. cbn [Z.ltb Z.compare].
    destruct (transient e); cbn [fst snd].
    + right. rewrite decoded_eblock. split; [discriminate|reflexivity].
    + left. rewrite decoded_efile. split; [reflexivity|apply Hclose].
Qed.

(** *** The loop *)

Lemma iteration_decoded fd r w :
  let d := decoded (fst (ev_read fd r w)) in
  iteration fd r w =
  (next_state d, logged (snd (ev_read fd r w)) (map System (dispatch_table d))).
Proof.
  cbv zeta. unfold iteration, bind.
  destruct (ev_read fd r w) as [ev w']. apply dispatch_decoded.
Qed.

Lemma next_state_terminated d : next_state d = Terminated <-> d = Fatal.
Proof. destruct d; cbn; split; congruence. Qed.

Lemma loop_cons fd r script w :
  loop fd (r :: script) w =
  match fst (iteration fd r w) with
  | Running => loop fd script (snd (iteration fd r w))
  | Terminated => (Terminated, snd (iteration fd r w))
  end.
Proof.
  cbn [loop]. unfold bind. destruct (iteration fd r w) as [[|] w']; reflexivity.
Qed.

Lemma loop_app_running fd before script w :
  fst (loop fd before w) = Running ->
  loop fd (before ++ script) w = loop fd script (snd (loop fd before w)).
Proof.
  revert w. induction before as [|r before IH]; intros w Hrun.
  - reflexivity.
  - cbn [app]. rewrite !loop_cons in *.
    destruct (fst (iteration fd r w)); [|discriminate]. now apply IH.
Qed.

Lemma loop_terminated fd script w :
  fst (loop fd script w) = Terminated <->
  exists before r after,
    script = before ++ r :: after /\
    fst (loop fd before w) = Running /\
    decoded (fst (ev_read fd r (snd (loop fd before w)))) = Fatal.
Proof.
  split.
  - revert w. induction script as [|r script IH]; intros w Hend.
    + discriminate.
    + rewrite loop_cons in Hend.
      destruct (fst (iteration fd r w)) eqn:Est.
      * destruct (IH _ Hend) as (before & r' & after & -> & Hrun & Hfatal).
        exists (r :: before), r', after. rewrite loop_cons, Est.
        repeat split; assumption.
      * exists [], r, script. repeat split.
        rewrite iteration_decoded in Est. now apply next_state_terminated.
  - intros (before & r & after & -> & Hrun & Hfatal).
    rewrite (loop_app_running fd before _ w Hrun), loop_cons.
    rewrite iteration_decoded. cbn [fst]. rewrite Hfatal. reflexivity.
Qed.

(** While the loop runs the descriptor stays open; when it has ended,
    the last call was the close of the descriptor inside [ev_read]. *)
Lemma loop_descriptor fd script w :
  fd ∈ fds w ->
  match fst (loop fd script w) with
  | Running => fd ∈ fds (snd (loop fd script w))
  | Terminated =>
      (fd ∉ fds (snd (loop fd script w))) /\
      (exists before, trace (snd (loop fd script w)) = before ++ [Close fd 0])
  end.
Proof.
  revert w. induction script as [|r script IH]; intros w Hfd.
  - exact Hfd.
  - rewrite loop_cons, iteration_decoded. cbn [fst snd].
    destruct (ev_read_open fd r w Hfd) as (n & e & [[Hd Hw] | [Hd Hw]]).
    + rewrite Hd. cbn [next_state dispatch_table map fst snd].
      rewrite logged_nil, Hw. cbn [fds trace]. split; [apply not_elem_of_released|].
      exists (trace w ++ [Read fd sizeof_input_event n]).
      now rewrite <- app_assoc.
    + destruct (next_state (decoded (fst (ev_read fd r w)))) eqn:Est;
        [|now apply next_state_terminated in Est].
      apply IH. rewrite Hw. exact Hfd.
Qed.

(** C1: the switch of the loop is the dispatch table.  A release of key
    224 makes the one call of the decrease command, a release of key 225
    the one call of the increase command; a press or a hold of any key, a
    release of any other key, and the two error results make no call. *)
Theorem C1_dispatch_on_release ev w :
  let calls := since w (snd (dispatch ev w)) in
  (decoded ev = Released 224 -> calls = [System "setbacklight %-10"]) /\
  (decoded ev = Released 225 -> calls = [System "setbacklight %+10"]) /\
  (forall c, decoded ev = Pressed c \/ decoded ev = Held c -> calls = []) /\
  (forall c, c <> 224 -> c <> 225 -> decoded ev = Released c -> calls = []) /\
  (decoded ev = WouldBlock \/ decoded ev = Fatal -> calls = []).
Proof.
  cbv zeta. rewrite dispatch_decoded. cbn [snd]. rewrite since_logged.
  repeat split.
  - intros ->. reflexivity.
  - intros ->. reflexivity.
  - intros c [-> | ->]; reflexivity.
  - intros c H224 H225 ->. cbn [dispatch_table].
    destruct (Z.eqb_spec c 224); [contradiction|].
    destruct (Z.eqb_spec c 225); [contradiction|]. reflexivity.
  - intros [-> | ->]; reflexivity.
Qed.

(** C6: one turn of the loop leaves [Running] exactly when [ev_read]
    returned [Fatal]; on every other result it stays [Running], having
    made the calls of the dispatch table after those of the read.  Hence
    the whole loop ends exactly when some reading, reached while still
    running, decodes as [Fatal]. *)
Theorem C6_loop_ends_on_fatal_only fd :
  (forall r w,
     let d := decoded (fst (ev_read fd r w)) in
     fst (iteration fd r w) =
       match d with Fatal => Terminated | _ => Running end /\
     snd (iteration fd r w) =
       logged (snd (ev_read fd r w)) (map System (dispatch_table d))) /\
  (forall script w,
     fst (loop fd script w) = Terminated <->
     exists before r after,
       script = before ++ r :: after /\
       fst (loop fd before w) = Running /\
       decoded (fst (ev_read fd r (snd (loop fd before w)))) = Fatal).
Proof.
  split.
  - intros r w. cbv zeta. rewrite iteration_decoded. split; reflexivity.
  - apply loop_terminated.
Qed.

(** C9: on an open descriptor [ev_read] closes it exactly when it
    returns [Fatal].  With any other result the descriptor table is as
    before and no close was called. *)
Theorem C9_closed_iff_fatal fd r w :
  fd ∈ fds w ->
  let d := decoded (fst (ev_read fd r w)) in
  let w' := snd (ev_read fd r w) in
  (d = Fatal <-> fd ∉ fds w') /\
  (d = Fatal <-> In (Close fd 0) (since w w')) /\
  (d <> Fatal ->
   fds w' = fds w /\ forall x res, ~ In (Close x res) (since w w')).
Proof.
  intros Hfd. cbv zeta.
  destruct (ev_read_open fd r w Hfd) as (n & e & [[Hd Hw] | [Hd Hw]]);
    rewrite Hw; unfold since; cbn [fds trace]; rewrite drop_app_length.
  - split; [|split].
    + split; [intros _; apply not_elem_of_released | intros _; exact Hd].
    + split; [intros _; right; left; reflexivity | intros _; exact Hd].
    + intros Hne. contradiction.
  - split; [|split].
    + split; [intros Hf; contradiction | intros Hout; contradiction].
    + split; [intros Hf; contradiction | intros [Hin | []]; discriminate].
    + intros _. split; [reflexivity|]. intros x res [Hin | []]. discriminate.
Qed.

(** C4, as the code has it: when the read returns less than 1 (nothing
    was read: an error, or the end of the file), [ev_read] returns
    [WouldBlock] if [errno] is then [EINTR], [EAGAIN] or [EWOULDBLOCK];
    otherwise it calls close on the descriptor and returns [Fatal].
    Either way the result does not depend on the bytes in the buffer. *)
Theorem C4_failed_read fd r w :
  let got := sys_read fd (stale r) sizeof_input_event (delivered r) w in
  fst (fst got) < 1 ->
  ev_read fd r w =
    (if transient (errno (snd got))
     then (uint32 (Z.lor EV_EBLOCK EV_ERROR), snd got)
     else (uint32 (Z.lor EV_EFILE EV_ERROR), snd (sys_close fd (snd got)))) /\
  decoded (fst (ev_read fd r w)) =
    (if transient (errno (snd got)) then WouldBlock else Fatal) /\
  forall old,
    ev_read fd {| stale := old; delivered := delivered r |} w = ev_read fd r w.
Proof.
  cbv zeta. intros Hn.
  assert (forall old,
    ev_read fd {| stale := old; delivered := delivered r |} w =
    (if transient (errno (snd (sys_read fd (stale r) sizeof_input_event
                                 (delivered r) w)))
     then (uint32 (Z.lor EV_EBLOCK EV_ERROR),
           snd (sys_read fd (stale r) sizeof_input_event (delivered r) w))
     else (uint32 (Z.lor EV_EFILE EV_ERROR),
           snd (sys_close fd (snd (sys_read fd (stale r) sizeof_input_event
                                     (delivered r) w)))))) as Hany.
  { intros old. rewrite ev_read_eq. cbv zeta. cbn [stale delivered].
    assert (fst (fst (sys_read fd old sizeof_input_event (delivered r) w)) =
            fst (fst (sys_read fd (stale r) sizeof_input_event (delivered r) w))
            /\ snd (sys_read fd old sizeof_input_event (delivered r) w) =
               snd (sys_read fd (stale r) sizeof_input_event (delivered r) w))
      as [-> ->].
    { unfold sys_read. os. destruct (bool_decide (fd ∈ fds w));
        [destruct (delivered r)|]; split; reflexivity. }
    apply Z.ltb_lt in Hn. rewrite Hn. reflexivity. }
  assert (ev_read fd r w = ev_read fd {| stale := stale r; delivered := delivered r |} w)
    as Hr by now destruct r.
  rewrite Hr. repeat split.
  - apply Hany.
  - rewrite Hany. now destruct (transient _).
  - intros old. now rewrite !Hany.
Qed.

(** *** main *)

Lemma main_started argv env w fd u :
  (2 <= length argv)%nat ->
  env_open env = Done fd ->
  0 <= fd ->
  env_daemon env = Done u ->
  let w2 := started (nth 1 argv EmptyString) fd w in
  main argv env w =
  match fst (loop fd (env_reads env) w2) with
  | Running => (None, snd (loop fd (env_reads env) w2))
  | Terminated =>
      (Some EXIT_SUCCESS,
       snd (sys_close fd (snd (loop fd (env_reads env) w2))))
  end.
Proof.
  intros Hargc Hopen Hfd Hdaemon. cbv zeta. unfold main.
  assert ((Z.of_nat (length argv) <? 2) = false) as -> by (apply Z.ltb_ge; lia).
  rewrite Hopen, Hdaemon. os. cbn [fst snd].
  assert ((fd <? 0) = false) as -> by (apply Z.ltb_ge; lia).
  cbn [Z.eqb negb fds errno trace]. unfold started.
  rewrite <- app_assoc. cbn [app].
  destruct (loop fd (env_reads env) _) as [[|] w3]; cbn [fst snd];
    [reflexivity|].
  destruct (bool_decide (fd ∈ fds w3)); reflexivity.
Qed.

(** A read that fails with an error other than the three to retry on ends
    the loop, at that reading or at an earlier one. *)
Lemma loop_ends_at_failure fd script w r e :
  fd ∈ fds w ->
  In r script ->
  delivered r = Fail e ->
  transient e = false ->
  fst (loop fd script w) = Terminated.
Proof.
  intros Hfd Hin Hr He. revert w Hfd.
  induction script as [|r0 script IH]; intros w Hfd; [destruct Hin|].
  rewrite loop_cons, iteration_decoded. cbn [fst snd].
  destruct (ev_read_open fd r0 w Hfd) as (n & e0 & [[Hd Hw] | [Hd Hw]]).
  - rewrite Hd. reflexivity.
  - destruct (next_state (decoded (fst (ev_read fd r0 w)))) eqn:Est;
      [|reflexivity].
    destruct Hin as [-> | Hin].
    + exfalso. apply Hd. rewrite ev_read_eq.
      rewrite (sys_read_open _ _ _ _ _ Hfd), Hr. cbv zeta.
      cbn [fst snd errno Z.ltb Z.compare]. rewrite He. apply decoded_efile.
    + apply (IH Hin). unfold logged. cbn [fds]. rewrite Hw. exact Hfd.
Qed.

(** C7: every failure of the start ends the process with [EXIT_FAILURE],
    which is not 0, after one message on the standard error: a missing
    argument (no open is tried), a failed open, a failed daemon.  After
    a good start, when one of the reads of the device fails with an error
    other than [EINTR], [EAGAIN] and [EWOULDBLOCK], the loop ends and the
    status is [EXIT_SUCCESS], which is 0. *)
Theorem C7_exit_status argv env w :
  let out := main argv env w in
  let path := nth 1 argv EmptyString in
  EXIT_FAILURE <> 0 /\ EXIT_SUCCESS = 0 /\
  ((length argv < 2)%nat ->
   fst out = Some EXIT_FAILURE /\
   since w (snd out) = [Stderr usage_message]) /\
  (forall e,
   (2 <= length argv)%nat -> env_open env = Fail e ->
   fst out = Some EXIT_FAILURE /\
   since w (snd out) = [Open path (-1); Stderr open_message]) /\
  (forall fd e,
   (2 <= length argv)%nat -> env_open env = Done fd -> 0 <= fd ->
   env_daemon env = Fail e ->
   fst out = Some EXIT_FAILURE /\
   since w (snd out) = [Open path fd; Daemon (-1); Stderr daemon_message]) /\
  (forall fd u r e,
   (2 <= length argv)%nat -> env_open env = Done fd -> 0 <= fd ->
   env_daemon env = Done u ->
   In r (env_reads env) -> delivered r = Fail e -> transient e = false ->
   fst out = Some EXIT_SUCCESS).
Proof.
  cbv zeta.
  split; [apply EXIT_FAILURE_nonzero|]. split; [apply EXIT_SUCCESS_zero|].
  split; [|split; [|split]].
  - intros Hargc. unfold main.
    assert ((Z.of_nat (length argv) <? 2) = true) as ->
      by (apply Z.ltb_lt; lia).
    os. split; [reflexivity|]. unfold since. cbn [trace].
    apply drop_app_length.
  - intros e Hargc Hopen. unfold main.
    assert ((Z.of_nat (length argv) <? 2) = false) as ->
      by (apply Z.ltb_ge; lia).
    rewrite Hopen. os. cbn [Z.ltb Z.compare].
    split; [reflexivity|]. unfold since. cbn [trace].
    rewrite <- app_assoc. apply drop_app_length.
  - intros fd e Hargc Hopen Hfd Hdaemon. unfold main.
    assert ((Z.of_nat (length argv) <? 2) = false) as ->
      by (apply Z.ltb_ge; lia).
    rewrite Hopen, Hdaemon. os.
    assert ((fd <? 0) = false) as -> by (apply Z.ltb_ge; lia).
    cbn [Z.eqb negb fst snd fds errno trace].
    split; [reflexivity|]. unfold since.
    rewrite <- !app_assoc. apply drop_app_length.
  - intros fd u r e Hargc Hopen Hfd Hdaemon Hin Hr He.
    rewrite (main_started argv env w fd u Hargc Hopen Hfd Hdaemon).
    cbv zeta.
    assert (fd ∈ fds (started (nth 1 argv EmptyString) fd w)) as Hopened.
    { unfold started. cbn [fds]. apply elem_of_union_r.
      now apply elem_of_singleton. }
    rewrite (loop_ends_at_failure fd (env_reads env) _ r e Hopened Hin Hr He).
    reflexivity.
Qed.

(** C10: whenever the process ends with [EXIT_SUCCESS], its last two
    calls are closes of the descriptor it had opened: the one inside
    [ev_read], which succeeds, and the one of [ev_close], which finds the
    descriptor already released and fails with [EBADF]. *)
Theorem C10_second_close_on_released_descriptor argv env w :
  fst (main argv env w) = Some EXIT_SUCCESS ->
  exists fd before,
    env_open env = Done fd /\
    trace (snd (main argv env w)) =
      before ++ [Close fd 0; Close fd (-1)] /\
    errno (snd (main argv env w)) = EBADF /\
    fd ∉ fds (snd (main argv env w)).
Proof.
  intros Hexit.
  assert (Some EXIT_FAILURE <> Some EXIT_SUCCESS) as Hne.
  { intros [= E]. apply EXIT_FAILURE_nonzero.
    rewrite E. apply EXIT_SUCCESS_zero. }
  destruct (Nat.lt_ge_cases (length argv) 2) as [Hargc|Hargc].
  { exfalso. revert Hexit. unfold main.
    assert ((Z.of_nat (length argv) <? 2) = true) as ->
      by (apply Z.ltb_lt; lia).
    os. exact Hne. }
  assert ((Z.of_nat (length argv) <? 2) = false) as Hlt
    by (apply Z.ltb_ge; lia).
  destruct (env_open env) as [fd|e] eqn:Hopen.
  2:{ exfalso. revert Hexit. unfold main. rewrite Hlt, Hopen. os.
      exact Hne. }
  destruct (Z.ltb_spec fd 0) as [Hfd|Hfd].
  { exfalso. revert Hexit. unfold main. rewrite Hlt, Hopen. os.
    apply Z.ltb_lt in Hfd. rewrite Hfd. exact Hne. }
  destruct (env_daemon env) as [u|e] eqn:Hdaemon.
  2:{ exfalso. revert Hexit. unfold main. rewrite Hlt, Hopen, Hdaemon. os.
      apply Z.ltb_ge in Hfd. rewrite Hfd. exact Hne. }
  rewrite (main_started argv env w fd u Hargc Hopen Hfd Hdaemon) in *.
  cbv zeta in *. exists fd.
  set (w2 := started (nth 1 argv EmptyString) fd w) in *.
  assert (fd ∈ fds w2) as Hin.
  { unfold w2, started. cbn [fds]. apply elem_of_union_r.
    now apply elem_of_singleton. }
  pose proof (loop_descriptor fd (env_reads env) w2 Hin) as Hloop.
  destruct (fst (loop fd (env_reads env) w2)); [discriminate|].
  destruct Hloop as [Hout [before Htrace]].
  rewrite (sys_close_closed fd _ Hout). cbn [snd fds errno trace].
  exists before. rewrite Htrace, <- app_assoc. repeat split. exact Hout.
Qed.

End Properties.

(** ** The properties on the concrete machine *)

Lemma device_open_3 : 3 ∈ fds device_open.
Proof. apply (bool_decide_unpack _). vm_compute. exact I. Defined.

(** The end-to-end scenario of the specification: one call of the
    increase command, none of the decrease command, and the process ends
    with status 0 after the fatal entry. *)
Example scenario_end_to_end :
  fst (main command_line scenario_run at_start) = Some 0 /\
  commands (trace (snd (main command_line scenario_run at_start))) =
    ["setbacklight %+10"].
Proof. vm_compute. split; reflexivity. Qed.

Lemma C2_witness :
  3 ∈ fds device_open /\
  length (record_bytes 1 225 1) = sizeof_input_event /\
  type (load_event (record_bytes 1 225 1)) = EV_KEY /\
  value (load_event (record_bytes 1 225 1)) = 1 /\
  decoded (fst (ev_read 3 (full 1 225 1) device_open)) = Pressed 225.
Proof.
  split; [exact device_open_3|]. do 3 (split; [reflexivity|]).
  exact (proj1 (C2_key_values_decoded 3 [] (record_bytes 1 225 1) device_open
                  device_open_3 eq_refl eq_refl) eq_refl).
Defined.

(** C3 as stated fails: a key record with value 3 is not taken as
    [WouldBlock] but as a release, and with code 225 it runs the increase
    command. *)
Lemma C3_counterexample :
  type (load_event (record_bytes 1 225 3)) = EV_KEY /\
  value (load_event (record_bytes 1 225 3)) = 3 /\
  decoded (fst (ev_read 3 (full 1 225 3) device_open)) = Released 225 /\
  decoded (fst (ev_read 3 (full 1 225 3) device_open)) <> WouldBlock /\
  commands (since device_open (snd (iteration 3 (full 1 225 3) device_open)))
    = ["setbacklight %+10"].
Proof. vm_compute. repeat split; discriminate. Qed.

Lemma C3_witness :
  3 ∈ fds device_open /\
  value (load_event (record_bytes 1 224 (-1))) = -1 /\
  decoded (fst (ev_read 3 (full 1 224 (-1)) device_open)) = Released 224 /\
  fst (iteration 3 (full 1 224 (-1)) device_open) = Running /\
  commands (since device_open (snd (iteration 3 (full 1 224 (-1)) device_open)))
    = ["setbacklight %-10"].
Proof.
  split; [exact device_open_3|]. split; [reflexivity|].
  exact (C3_unlisted_values_release 3 [] (record_bytes 1 224 (-1)) device_open
           device_open_3 eq_refl eq_refl
           ltac:(discriminate) ltac:(discriminate) ltac:(discriminate)).
Defined.

(** C4 as stated fails: a read of 8 bytes, fewer than the 24 of a record,
    is neither [WouldBlock] nor [Fatal]; the stale bytes behind the 8 are
    taken as the record, here a release of key 225, and nothing is
    closed. *)
Lemma C4_counterexample :
  (length (firstn 8 (record_bytes 0 0 0)) < sizeof_input_event)%nat /\
  transient (errno device_open) = false /\
  decoded (fst (ev_read 3 short_read device_open)) = Released 225 /\
  decoded (fst (ev_read 3 short_read device_open)) <> WouldBlock /\
  decoded (fst (ev_read 3 short_read device_open)) <> Fatal /\
  since device_open (snd (ev_read 3 short_read device_open)) = [Read 3 24 8].
Proof. vm_compute. repeat split; (lia || discriminate). Qed.

Lemma C4_witness :
  fst (fst (sys_read 3 (stale unplugged) sizeof_input_event
              (delivered unplugged) device_open)) < 1 /\
  decoded (fst (ev_read 3 unplugged device_open)) = Fatal /\
  since device_open (snd (ev_read 3 unplugged device_open)) =
    [Read 3 24 (-1); Close 3 0].
Proof.
  split; [reflexivity|]. split.
  - exact (proj1 (proj2 (C4_failed_read 3 unplugged device_open eq_refl))).
  - rewrite (proj1 (C4_failed_read 3 unplugged device_open eq_refl)).
    vm_compute. reflexivity.
Defined.

Lemma C5_witness :
  3 ∈ fds device_open /\
  type (load_event (record_bytes 0 0 0)) <> EV_KEY /\
  decoded (fst (ev_read 3 (full 0 0 0) device_open)) = WouldBlock /\
  fst (iteration 3 (full 0 0 0) device_open) = Running /\
  since device_open (snd (iteration 3 (full 0 0 0) device_open)) =
    [Read 3 24 24].
Proof.
  split; [exact device_open_3|]. split; [discriminate|].
  exact (C5_other_classes_ignored 3 [] (record_bytes 0 0 0) device_open
           device_open_3 eq_refl ltac:(discriminate)).
Defined.

(** C7 on the scripted run: the start is good, the last reading fails
    with [ENODEV], and the process ends with status 0. *)
Lemma C7_witness :
  (2 <= length command_line)%nat /\
  env_open scenario_run = Done 3 /\
  0 <= 3 /\
  env_daemon scenario_run = Done tt /\
  In unplugged (env_reads scenario_run) /\
  delivered unplugged = Fail 19 /\
  transient 19 = false /\
  fst (main command_line scenario_run at_start) = Some EXIT_SUCCESS /\
  EXIT_SUCCESS = 0.
Proof.
  assert (2 <= length command_line)%nat as Hargc
    by (apply Nat.leb_le; reflexivity).
  assert (0 <= 3) as Hfd by discriminate.
  assert (In unplugged (env_reads scenario_run)) as Hin
    by (do 7 right; left; reflexivity).
  split; [exact Hargc|]. split; [reflexivity|]. split; [exact Hfd|].
  split; [reflexivity|]. split; [exact Hin|]. do 2 (split; [reflexivity|]).
  pose proof (C7_exit_status command_line scenario_run at_start)
    as (_ & Hzero & _ & _ & _ & Hsuccess).
  split; [|exact Hzero].
  exact (Hsuccess 3 tt unplugged 19 Hargc eq_refl Hfd eq_refl Hin
           eq_refl eq_refl).
Defined.

Lemma C9_witness :
  3 ∈ fds device_open /\
  (decoded (fst (ev_read 3 unplugged device_open)) = Fatal <->
   3 ∉ fds (snd (ev_read 3 unplugged device_open))) /\
  (decoded (fst (ev_read 3 (full 1 225 0) device_open)) = Fatal <->
   3 ∉ fds (snd (ev_read 3 (full 1 225 0) device_open))).
Proof.
  split; [exact device_open_3|]. split.
  - exact (proj1 (C9_closed_iff_fatal 3 unplugged device_open device_open_3)).
  - exact (proj1 (C9_closed_iff_fatal 3 (full 1 225 0) device_open
                    device_open_3)).
Defined.

Lemma C10_witness :
  fst (main command_line scenario_run at_start) = Some EXIT_SUCCESS /\
  exists fd before,
    env_open scenario_run = Done fd /\
    trace (snd (main command_line scenario_run at_start)) =
      before ++ [Close fd 0; Close fd (-1)] /\
    errno (snd (main command_line scenario_run at_start)) = EBADF /\
    fd ∉ fds (snd (main command_line scenario_run at_start)).
Proof.
  assert (fst (main command_line scenario_run at_start) = Some EXIT_SUCCESS)
    as Hexit by (vm_compute; reflexivity).
  split; [exact Hexit|].
  exact (C10_second_close_on_released_descriptor
           command_line scenario_run at_start Hexit).
Defined.

(** ** Further properties of the keygrabber *)

Section Keygrabber.
Context `{Platform}.

Ltac calls :=
  unfold sys_close, sys_read, bind, ret, log, set_errno, fd_release, is_open;
  cbn [fst snd fds errno trace].

Lemma sys_read_closed fd buf count k w :
  fd ∉ fds w ->
  sys_read fd buf count k w =
  ((-1, buf),
   {| fds := fds w; errno := EBADF;
      trace := trace w ++ [Read fd count (-1)] |}).
Proof. intros Hfd. calls. now rewrite (bool_decide_eq_false_2 _ Hfd). Qed.

(** The world after the read of [ev_read]: the same descriptors, and one
    more call. *)
Lemma sys_read_world fd buf count k w :
  exists e,
    snd (sys_read fd buf count k w) =
    {| fds := fds w; errno := e;
       trace := trace w ++ [Read fd count (fst (fst (sys_read fd buf count k w)))] |}.
Proof.
  calls. destruct (bool_decide (fd ∈ fds w)); [destruct k|];
    eexists; reflexivity.
Qed.

Lemma sys_close_world fd w :
  exists res e released,
    snd (sys_close fd w) =
    {| fds := released; errno := e; trace := trace w ++ [Close fd res] |} /\
    (released = fds w \/ released = fds w ∖ {[fd]}).
Proof.
  calls. destruct (bool_decide (fd ∈ fds w));
    do 3 eexists; (split; [reflexivity|]); [right|left]; reflexivity.
Qed.

Lemma pack_decoded ev :
  u16 (code ev) ->
  decoded (pack ev) =
  if type ev =? EV_KEY then
    if value ev =? 1 then Pressed (code ev)
    else if value ev =? 2 then Held (code ev)
    else Released (code ev)
  else WouldBlock.
Proof.
  intros Hc. unfold pack.
  destruct (type ev =? EV_KEY); [|apply decoded_eblock].
  destruct (value ev =? 1); [now apply decoded_pressed|].
  destruct (value ev =? 2); [now apply decoded_held|now apply decoded_released].
Qed.

Lemma load_event_take data rest :
  (sizeof_input_event <= length data)%nat ->
  load_event (firstn sizeof_input_event data ++ rest) = load_event data.
Proof.
  intros Hlen. unfold sizeof_input_event in *.
  unfold load_event, u32_at, u16_at, byte_at.
  rewrite !app_nth1 by (rewrite length_firstn; lia).
  rewrite !nth_firstn.
  repeat match goal with
  | |- context [(?i <? ?n)%nat] =>
      replace (i <? n)%nat with true by (symmetry; apply Nat.ltb_lt; lia)
  end.
  reflexivity.
Qed.

Lemma load_event_behind data old :
  (length data <= sizeof_timeval)%nat ->
  load_event (data ++ skipn (length data) old) = load_event old.
Proof.
  intros Hlen. unfold load_event, u32_at, u16_at, byte_at.
  rewrite !app_nth2 by lia. rewrite !nth_skipn.
  repeat match goal with
  | |- context [nth (length data + (?i - length data)) old x00] =>
      replace (length data + (i - length data))%nat with i by lia
  end.
  reflexivity.
Qed.

(** X1: the macros take a packed integer apart again.  For a 16-bit code
    merged with none or one of the three flags, [EV_GETCODE] gives back
    the code and [EV_HASFLAG] answers with the flag itself for the flag
    that was merged and with 0 for the others. *)
Theorem X1_macros_recover_code_and_flag c f :
  u16 c ->
  In f [0; EV_UP; EV_HOLD; EV_ERROR] ->
  EV_GETCODE (Z.lor c f) = c /\
  EV_GETERROR (Z.lor c f) = c /\
  EV_HASFLAG (Z.lor c f) EV_UP = (if f =? EV_UP then EV_UP else 0) /\
  EV_HASFLAG (Z.lor c f) EV_HOLD = (if f =? EV_HOLD then EV_HOLD else 0) /\
  EV_FAIL (Z.lor c f) = (if f =? EV_ERROR then EV_ERROR else 0).
Proof.
  intros Hc Hf. unfold EV_GETERROR, EV_FAIL, EV_HASFLAG.
  rewrite !land_code_flag by (exact Hc || reflexivity).
  cbn [In] in Hf. destruct Hf as [<- | [<- | [<- | [<- | []]]]];
    rewrite getcode_code_flag by (exact Hc || reflexivity);
    repeat split; reflexivity.
Qed.

(** X2: the calls of [ev_read] are one read of [sizeof (struct
    input_event)] bytes on its descriptor and, at most, one close of the
    same descriptor after it; it opens nothing and leaves every other
    descriptor as it was. *)
Theorem X2_ev_read_calls fd r w :
  let w' := snd (ev_read fd r w) in
  (exists n,
     since w w' = [Read fd sizeof_input_event n] \/
     exists res, since w w' = [Read fd sizeof_input_event n; Close fd res]) /\
  (forall x, x ∈ fds w' -> x ∈ fds w) /\
  (forall x, x <> fd -> x ∈ fds w -> x ∈ fds w').
Proof.
  cbv zeta. rewrite ev_read_eq. cbv zeta.
  destruct (sys_read_world fd (stale r) sizeof_input_event (delivered r) w)
    as [e Hw1].
  set (n := fst (fst (sys_read fd (stale r) sizeof_input_event (delivered r) w)))
    in *.
  assert (since w (snd (sys_read fd (stale r) sizeof_input_event
                          (delivered r) w)) = [Read fd sizeof_input_event n])
    as Hsince.
  { rewrite Hw1. unfold since. cbn [trace]. apply drop_app_length. }
  assert (fds (snd (sys_read fd (stale r) sizeof_input_event (delivered r) w))
          = fds w) as Hfds by now rewrite Hw1.
  destruct (n <? 1); [destruct (transient _)|]; cbn [snd].
  - rewrite Hfds. split; [exists n; left; exact Hsince|]. split; tauto.
  - destruct (sys_close_world fd
                (snd (sys_read fd (stale r) sizeof_input_event (delivered r) w)))
      as (res & e' & released & -> & Hrel).
    rewrite Hw1 in *. cbn [fds trace] in *. split.
    + exists n. right. exists res. unfold since. cbn [trace].
      rewrite <- app_assoc. apply drop_app_length.
    + destruct Hrel as [-> | ->]; [split; tauto|]. split.
      * intros x Hx. now apply elem_of_difference in Hx.
      * intros x Hne Hx. apply elem_of_difference. split; [exact Hx|].
        intros Hs. apply elem_of_singleton in Hs. contradiction.
  - rewrite Hfds. split; [exists n; left; exact Hsince|]. split; tauto.
Qed.

(** What [ev_read] does with a reading that fills the buffer. *)
Lemma ev_read_whole fd old data w :
  fd ∈ fds w ->
  (sizeof_input_event <= length data)%nat ->
  ev_read fd {| stale := old; delivered := Done data |} w =
  (pack (load_event data),
   logged w [Read fd sizeof_input_event (Z.of_nat sizeof_input_event)]).
Proof.
  intros Hfd Hlen. rewrite ev_read_eq. cbn [stale delivered].
  rewrite (sys_read_open _ _ _ _ _ Hfd). cbv zeta. cbn [fst snd].
  rewrite firstn_length_le by exact Hlen.
  rewrite (load_event_take data _ Hlen).
  assert ((Z.of_nat sizeof_input_event <? 1) = false) as ->.
  { apply Z.ltb_ge. unfold sizeof_input_event. lia. }
  reflexivity.
Qed.

(** X3: when the device delivers at least a whole record, [ev_read]
    takes the first [sizeof (struct input_event)] bytes of it and nothing
    else: neither the bytes behind them nor what the buffer held before
    change the result, and the world is left with the one read and the
    [errno] it had. *)
Theorem X3_whole_read_takes_one_record fd old old' data w :
  fd ∈ fds w ->
  (sizeof_input_event <= length data)%nat ->
  ev_read fd {| stale := old; delivered := Done data |} w =
  ev_read fd {| stale := old';
                delivered := Done (firstn sizeof_input_event data) |} w /\
  fst (ev_read fd {| stale := old; delivered := Done data |} w) =
    pack (load_event data) /\
  snd (ev_read fd {| stale := old; delivered := Done data |} w) =
    logged w [Read fd sizeof_input_event (Z.of_nat sizeof_input_event)].
Proof.
  intros Hfd Hlen. rewrite (ev_read_whole fd old data w Hfd Hlen).
  rewrite (ev_read_whole fd old' _ w Hfd)
    by (rewrite firstn_length_le by exact Hlen; lia).
  repeat split. f_equal. f_equal.
  rewrite <- (app_nil_r (firstn sizeof_input_event data)) at 1.
  now rewrite load_event_take.
Qed.

(** X4: a read that brings some bytes but no more than the timestamp
    passes the test of [ev_read], which then reports whatever event the
    buffer held before the read; nothing is closed. *)
Theorem X4_short_read_reports_buffer fd old data w :
  fd ∈ fds w ->
  (1 <= length data <= sizeof_timeval)%nat ->
  ev_read fd {| stale := old; delivered := Done data |} w =
  (pack (load_event old),
   logged w [Read fd sizeof_input_event (Z.of_nat (length data))]).
Proof.
  intros Hfd [Hone Hlen]. rewrite ev_read_eq. cbn [stale delivered].
  rewrite (sys_read_open _ _ _ _ _ Hfd). cbv zeta. cbn [fst snd].
  rewrite firstn_all2 by (unfold sizeof_input_event; lia).
  rewrite (load_event_behind data old Hlen).
  assert ((Z.of_nat (length data) <? 1) = false) as ->
    by (apply Z.ltb_ge; lia).
  reflexivity.
Qed.

(** X5: at the end of the file the read returns 0 and sets no [errno],
    so [ev_read] decides on the [errno] that an earlier call left: with
    [EINTR], [EAGAIN] or [EWOULDBLOCK] still there it answers
    [WouldBlock] and keeps the descriptor, with any other value it closes
    the descriptor and answers [Fatal]. *)
Theorem X5_end_of_file_uses_stale_errno fd old w :
  fd ∈ fds w ->
  ev_read fd {| stale := old; delivered := Done [] |} w =
  if transient (errno w)
  then (uint32 (Z.lor EV_EBLOCK EV_ERROR),
        logged w [Read fd sizeof_input_event 0])
  else (uint32 (Z.lor EV_EFILE EV_ERROR),
        {| fds := fds w ∖ {[fd]}; errno := errno w;
           trace := trace w ++ [Read fd sizeof_input_event 0; Close fd 0] |}).
Proof.
  intros Hfd. rewrite ev_read_eq. cbn [stale delivered].
  rewrite (sys_read_open _ _ _ _ _ Hfd). cbv zeta.
  rewrite firstn_nil. cbn [length Z.of_nat fst snd Z.ltb Z.compare logged errno].
  destruct (transient (errno w)); [reflexivity|].
  rewrite sys_close_open by exact Hfd. unfold logged.
  cbn [snd fds errno trace]. now rewrite <- app_assoc.
Qed.

(** X6: on a descriptor that is not open the read fails with [EBADF];
    where that is none of the three errors to retry on, [ev_read] answers
    [Fatal], its close fails as well, and the descriptor table is
    unchanged. *)
Theorem X6_ev_read_on_closed_descriptor fd r w :
  fd ∉ fds w ->
  transient EBADF = false ->
  ev_read fd r w =
  (uint32 (Z.lor EV_EFILE EV_ERROR),
   {| fds := fds w; errno := EBADF;
      trace := trace w ++ [Read fd sizeof_input_event (-1); Close fd (-1)] |}).
Proof.
  intros Hfd Hbadf. rewrite ev_read_eq.
  rewrite (sys_read_closed _ _ _ _ _ Hfd). cbv zeta.
  cbn [fst snd errno Z.ltb Z.compare]. rewrite Hbadf.
  rewrite sys_close_closed by exact Hfd. cbn [snd fds errno trace].
  now rewrite <- app_assoc.
Qed.

End Keygrabber.

(** ** Further properties of the loop and of main *)

Section Loop.
Context `{Platform}.

Lemma commands_app t t' : commands (t ++ t') = commands t ++ commands t'.
Proof. unfold commands. apply flat_map_app. Qed.

Lemma commands_system l : commands (map System l) = l.
Proof.
  unfold commands. induction l as [|c l IH]; [reflexivity|].
  cbn [map flat_map app]. now rewrite IH.
Qed.

(** The dispatch table on what [ev_read] made of a record. *)
Lemma table_of_pack ev :
  u16 (code ev) ->
  dispatch_table (decoded (pack ev)) = command_of ev /\
  next_state (decoded (pack ev)) = Running.
Proof.
  intros Hc. rewrite (pack_decoded ev Hc). unfold command_of.
  destruct (type ev =? EV_KEY); [|now split].
  destruct (value ev =? 1); [now split|].
  destruct (value ev =? 2); [now split|]. cbn [orb dispatch_table next_state].
  split; [|reflexivity].
  destruct (Z.eqb_spec (code ev) 225) as [->|]; [reflexivity|].
  destruct (code ev =? 224); reflexivity.
Qed.

Lemma iteration_whole fd r w :
  fd ∈ fds w ->
  whole r = true ->
  iteration fd r w = (Running, logged w (turn_calls fd r)).
Proof.
  intros Hfd Hwhole. destruct r as [old [data|e]]; [|discriminate].
  unfold whole in Hwhole. cbn [delivered] in Hwhole.
  apply Nat.leb_le in Hwhole.
  rewrite iteration_decoded. cbv zeta.
  rewrite (ev_read_whole fd old data w Hfd Hwhole). cbn [fst snd].
  destruct (table_of_pack (load_event data) (code_range data)) as [-> ->].
  rewrite logged_logged. reflexivity.
Qed.

Lemma ev_read_idle fd r w :
  fd ∈ fds w ->
  transient (errno w) = true ->
  idle r = true ->
  ev_read fd r w =
  (uint32 (Z.lor EV_EBLOCK EV_ERROR),
   {| fds := fds w;
      errno := match delivered r with Done _ => errno w | Fail e => e end;
      trace := trace w ++
        [Read fd sizeof_input_event
           match delivered r with Done _ => 0 | Fail _ => -1 end] |}).
Proof.
  intros Hfd Herrno Hidle. destruct r as [old [[|b data]|e]];
    unfold idle in Hidle; cbn [delivered] in *; [| discriminate |].
  - rewrite ev_read_eq. cbn [stale delivered].
    rewrite (sys_read_open _ _ _ _ _ Hfd). cbv zeta. rewrite firstn_nil.
    cbn [length Z.of_nat fst snd Z.ltb Z.compare logged errno].
    rewrite Herrno. reflexivity.
  - rewrite ev_read_eq. cbn [stale delivered].
    rewrite (sys_read_open _ _ _ _ _ Hfd). cbv zeta.
    cbn [fst snd errno Z.ltb Z.compare]. rewrite Hidle. reflexivity.
Qed.

(** X7: the loop over two scripts in a row is the loop over the second
    one from where the first one left it, and when the first one has
    ended the loop, nothing of the second one is read. *)
Theorem X7_loop_over_appended_scripts fd s1 s2 w :
  loop fd (s1 ++ s2) w =
  match fst (loop fd s1 w) with
  | Running => loop fd s2 (snd (loop fd s1 w))
  | Terminated => loop fd s1 w
  end.
Proof.
  revert w. induction s1 as [|r s1 IH]; intros w.
  - reflexivity.
  - cbn [app]. rewrite !loop_cons.
    destruct (fst (iteration fd r w)); [apply IH|reflexivity].
Qed.

Lemma loop_whole fd script w :
  fd ∈ fds w ->
  forallb whole script = true ->
  loop fd script w = (Running, logged w (flat_map (turn_calls fd) script)).
Proof.
  revert w. induction script as [|r script IH]; intros w Hfd Hwhole.
  - cbn [loop flat_map]. now rewrite logged_nil.
  - cbn [forallb] in Hwhole. apply andb_true_iff in Hwhole as [Hr Hrest].
    rewrite loop_cons, (iteration_whole fd r w Hfd Hr). cbn [fst snd].
    rewrite (IH (logged w (turn_calls fd r)) Hfd Hrest).
    now rewrite logged_logged.
Qed.

Lemma commands_turns fd script :
  commands (flat_map (turn_calls fd) script) =
  flat_map (fun r => command_of (load_event (payload r))) script.
Proof.
  induction script as [|r script IH]; [reflexivity|].
  cbn [flat_map]. rewrite commands_app, IH. f_equal.
  unfold turn_calls. change (commands (?c :: ?t)) with (commands ([c] ++ t)).
  rewrite commands_app. apply commands_system.
Qed.

(** X8: while the device delivers whole records the loop never ends and
    never touches the descriptor table; its calls are, reading by
    reading, the read and then the command of the record, so the commands
    it has run are those of the releases of keys 224 and 225, in order. *)
Theorem X8_loop_on_whole_records fd script w :
  fd ∈ fds w ->
  forallb whole script = true ->
  loop fd script w = (Running, logged w (flat_map (turn_calls fd) script)) /\
  commands (since w (snd (loop fd script w))) =
    flat_map (fun r => command_of (load_event (payload r))) script.
Proof.
  intros Hfd Hwhole. pose proof (loop_whole fd script w Hfd Hwhole) as Hloop.
  split; [exact Hloop|]. rewrite Hloop. cbn [snd]. rewrite since_logged.
  apply commands_turns.
Qed.

(** X9: once [errno] holds one of the three errors to retry on, neither
    further such errors nor the end of the file end the loop: every turn
    is one read and nothing else, and the descriptor stays open. *)
Theorem X9_idle_readings_never_end_the_loop fd script w :
  fd ∈ fds w ->
  transient (errno w) = true ->
  forallb idle script = true ->
  let out := loop fd script w in
  fst out = Running /\
  fds (snd out) = fds w /\
  transient (errno (snd out)) = true /\
  since w (snd out) =
    map (fun r => Read fd sizeof_input_event
                    match delivered r with Done _ => 0 | Fail _ => -1 end)
        script.
Proof.
  cbv zeta. intros Hfd Herrno Hidle.
  set (call := fun r : reading =>
         Read fd sizeof_input_event
           match delivered r with Done _ => 0 | Fail _ => -1 end).
  assert (fst (loop fd script w) = Running /\
          fds (snd (loop fd script w)) = fds w /\
          transient (errno (snd (loop fd script w))) = true /\
          trace (snd (loop fd script w)) = trace w ++ map call script)
    as (Hrun & Hfds & Hno & Htrace).
  { revert w Hfd Herrno. induction script as [|r script IH];
      intros w Hfd Herrno.
    - cbn [loop ret fst snd map]. rewrite app_nil_r. now repeat split.
    - cbn [forallb] in Hidle. apply andb_true_iff in Hidle as [Hr Hrest].
      rewrite loop_cons, iteration_decoded. cbv zeta.
      rewrite (ev_read_idle fd r w Hfd Herrno Hr). cbn [fst snd].
      rewrite decoded_eblock. cbn [next_state dispatch_table map].
      rewrite logged_nil.
      match goal with |- context [loop fd script ?w1] =>
        destruct (IH Hrest w1) as (Hrun & Hfds & Hno & Htrace) end.
      + exact Hfd.
      + cbn [errno]. destruct r as [old [[|b data]|e]];
          cbn [delivered idle] in *;
          (exact Herrno || exact Hr || discriminate).
      + cbn [fds errno trace] in *. repeat split; try assumption.
        rewrite Htrace, <- app_assoc. reflexivity. }
  repeat split; try assumption.
  unfold since. rewrite Htrace. apply drop_app_length.
Qed.

End Loop.

Section Main.
Context `{Platform}.

Ltac run_main :=
  unfold main, ev_open, sys_open, sys_daemon, fprintf_stderr, bind, ret, log,
    set_errno, fd_open;
  cbn [fst snd fds errno trace].

(** X10: when daemon fails, [main] leaves with [EXIT_FAILURE] at once:
    the device it has opened is still open, no close was called, and
    [errno] is the one of daemon. *)
Theorem X10_daemon_failure_leaves_device_open argv env w fd e :
  (2 <= length argv)%nat ->
  env_open env = Done fd ->
  0 <= fd ->
  env_daemon env = Fail e ->
  let out := main argv env w in
  fst out = Some EXIT_FAILURE /\
  fd ∈ fds (snd out) /\
  errno (snd out) = e /\
  forall x res, ~ In (Close x res) (since w (snd out)).
Proof.
  intros Hargc Hopen Hfd Hdaemon. cbv zeta. unfold main.
  assert ((Z.of_nat (length argv) <? 2) = false) as ->
    by (apply Z.ltb_ge; lia).
  rewrite Hopen, Hdaemon. run_main.
  assert ((fd <? 0) = false) as -> by (apply Z.ltb_ge; lia).
  cbn [Z.eqb negb fst snd fds errno trace]. unfold since. cbn [trace].
  rewrite <- !app_assoc, drop_app_length.
  split; [reflexivity|]. split.
  - apply elem_of_union_r. now apply elem_of_singleton.
  - split; [reflexivity|]. cbn [app In]. intros x res [E|[E|[E|[]]]];
      discriminate.
Qed.

(** X11: after a good start, as long as the device delivers whole
    records the process does not exit and does not close the device, and
    the commands it has run are those of the releases of keys 224 and
    225 among the records, in order. *)
Theorem X11_main_on_whole_records argv env w fd u :
  (2 <= length argv)%nat ->
  env_open env = Done fd ->
  0 <= fd ->
  env_daemon env = Done u ->
  forallb whole (env_reads env) = true ->
  let out := main argv env w in
  fst out = None /\
  fd ∈ fds (snd out) /\
  commands (since w (snd out)) =
    flat_map (fun r => command_of (load_event (payload r))) (env_reads env).
Proof.
  intros Hargc Hopen Hfd Hdaemon Hwhole. cbv zeta.
  rewrite (main_started argv env w fd u Hargc Hopen Hfd Hdaemon). cbv zeta.
  set (w2 := started (nth 1 argv EmptyString) fd w).
  assert (fd ∈ fds w2) as Hin.
  { unfold w2, started. cbn [fds]. apply elem_of_union_r.
    now apply elem_of_singleton. }
  rewrite (loop_whole fd (env_reads env) w2 Hin Hwhole). cbn [fst snd].
  split; [reflexivity|]. split; [exact Hin|].
  unfold since, logged, w2, started. cbn [trace].
  rewrite <- app_assoc, drop_app_length, commands_app.
  apply commands_turns.
Qed.

(** X12: a run that ends with [EXIT_FAILURE] has made no read and run no
    command.  Its calls are the usage message alone, or the open that
    gave a negative result and its message, or the open, the daemon that
    failed, and its message. *)
Theorem X12_failed_start_calls argv env w :
  fst (main argv env w) = Some EXIT_FAILURE ->
  let t := since w (snd (main argv env w)) in
  let path := nth 1 argv EmptyString in
  t = [Stderr usage_message] \/
  (exists r, r < 0 /\ t = [Open path r; Stderr open_message]) \/
  (exists fd, 0 <= fd /\
     t = [Open path fd; Daemon (-1); Stderr daemon_message]).
Proof.
  intros Hexit. cbv zeta.
  destruct (Nat.lt_ge_cases (length argv) 2) as [Hargc|Hargc].
  { left. unfold main.
    assert ((Z.of_nat (length argv) <? 2) = true) as ->
      by (apply Z.ltb_lt; lia).
    run_main. unfold since. cbn [trace]. apply drop_app_length. }
  assert ((Z.of_nat (length argv) <? 2) = false) as Hlt
    by (apply Z.ltb_ge; lia).
  right. destruct (env_open env) as [fd|e] eqn:Hopen.
  2:{ left. exists (-1). split; [reflexivity|]. unfold main.
      rewrite Hlt, Hopen. run_main. cbn [Z.ltb Z.compare fst snd trace].
      unfold since. cbn [trace]. rewrite <- app_assoc. apply drop_app_length. }
  destruct (Z.ltb_spec fd 0) as [Hfd|Hfd].
  { left. exists fd. split; [exact Hfd|]. unfold main.
    rewrite Hlt, Hopen. run_main. apply Z.ltb_lt in Hfd. rewrite Hfd.
    cbn [fst snd trace]. unfold since. cbn [trace]. rewrite <- app_assoc.
    apply drop_app_length. }
  right. exists fd. split; [exact Hfd|].
  destruct (env_daemon env) as [u|e] eqn:Hdaemon.
  - exfalso.
    rewrite (main_started argv env w fd u Hargc Hopen Hfd Hdaemon) in Hexit.
    cbv zeta in Hexit.
    destruct (fst (loop fd (env_reads env) _)); cbn [fst] in Hexit;
      [discriminate|].
    injection Hexit as E. apply EXIT_FAILURE_nonzero.
    rewrite <- E. apply EXIT_SUCCESS_zero.
  - unfold main. rewrite Hlt, Hopen, Hdaemon. run_main.
    apply Z.ltb_ge in Hfd. rewrite Hfd.
    cbn [Z.eqb negb fst snd fds errno trace]. unfold since. cbn [trace].
    rewrite <- !app_assoc. apply drop_app_length.
Qed.

End Main.

(** ** The further properties on the concrete machine *)

Lemma interrupted_3 : 3 ∈ fds interrupted.
Proof. apply (bool_decide_unpack _). vm_compute. exact I. Defined.

Lemma device_open_not_7 : 7 ∉ fds device_open.
Proof. apply (proj1 (bool_decide_eq_false _)). vm_compute. reflexivity. Defined.

Lemma X1_witness :
  u16 225 /\
  In EV_UP [0; EV_UP; EV_HOLD; EV_ERROR] /\
  EV_GETCODE (Z.lor 225 EV_UP) = 225 /\
  EV_GETERROR (Z.lor 225 EV_UP) = 225 /\
  EV_HASFLAG (Z.lor 225 EV_UP) EV_UP = EV_UP /\
  EV_HASFLAG (Z.lor 225 EV_UP) EV_HOLD = 0 /\
  EV_FAIL (Z.lor 225 EV_UP) = 0.
Proof.
  assert (u16 225) as Hc by (split; [discriminate|reflexivity]).
  assert (In EV_UP [0; EV_UP; EV_HOLD; EV_ERROR]) as Hf
    by (right; left; reflexivity).
  split; [exact Hc|]. split; [exact Hf|].
  exact (X1_macros_recover_code_and_flag 225 EV_UP Hc Hf).
Defined.

Lemma X3_witness :
  3 ∈ fds device_open /\
  (sizeof_input_event <=
   length (record_bytes 1 225 0 ++ record_bytes 1 224 0))%nat /\
  fst (ev_read 3 {| stale := record_bytes 1 224 1;
                    delivered := Done (record_bytes 1 225 0 ++
                                       record_bytes 1 224 0) |}
         device_open) = Z.lor 225 EV_UP.
Proof.
  assert (sizeof_input_event <=
          length (record_bytes 1 225 0 ++ record_bytes 1 224 0))%nat as Hlen
    by (apply Nat.leb_le; reflexivity).
  split; [exact device_open_3|]. split; [exact Hlen|].
  exact (proj1 (proj2 (X3_whole_read_takes_one_record 3 (record_bytes 1 224 1)
                         [] _ device_open device_open_3 Hlen))).
Defined.

Lemma X4_witness :
  3 ∈ fds device_open /\
  (1 <= length (firstn 8 (record_bytes 0 0 0)) <= sizeof_timeval)%nat /\
  ev_read 3 short_read device_open =
    (Z.lor 225 EV_UP, logged device_open [Read 3 24 8]).
Proof.
  assert (1 <= length (firstn 8 (record_bytes 0 0 0)) <= sizeof_timeval)%nat
    as Hlen by (split; apply Nat.leb_le; reflexivity).
  split; [exact device_open_3|]. split; [exact Hlen|].
  exact (X4_short_read_reports_buffer 3 (record_bytes 1 225 0)
           (firstn 8 (record_bytes 0 0 0)) device_open device_open_3 Hlen).
Defined.

Lemma X5_witness :
  3 ∈ fds interrupted /\
  decoded (fst (ev_read 3 end_of_file interrupted)) = WouldBlock /\
  decoded (fst (ev_read 3 end_of_file device_open)) = Fatal.
Proof.
  split; [exact interrupted_3|]. split.
  - exact (f_equal (fun out => decoded (fst out))
             (X5_end_of_file_uses_stale_errno 3 [] interrupted interrupted_3)).
  - exact (f_equal (fun out => decoded (fst out))
             (X5_end_of_file_uses_stale_errno 3 [] device_open device_open_3)).
Defined.

Lemma X6_witness :
  (7 ∉ fds device_open) /\
  transient EBADF = false /\
  ev_read 7 (full 1 225 0) device_open =
    (Z.lor EV_EFILE EV_ERROR,
     {| fds := fds device_open; errno := 9;
        trace := [Read 7 24 (-1); Close 7 (-1)] |}).
Proof.
  split; [exact device_open_not_7|]. split; [reflexivity|].
  exact (X6_ev_read_on_closed_descriptor 7 (full 1 225 0) device_open
           device_open_not_7 eq_refl).
Defined.

Lemma X8_witness :
  3 ∈ fds device_open /\
  forallb whole keys = true /\
  fst (loop 3 keys device_open) = Running /\
  commands (since device_open (snd (loop 3 keys device_open))) =
    ["setbacklight %+10"; "setbacklight %-10"].
Proof.
  split; [exact device_open_3|]. split; [reflexivity|]. split.
  - exact (f_equal fst (proj1 (X8_loop_on_whole_records 3 keys device_open
                                 device_open_3 eq_refl))).
  - exact (proj2 (X8_loop_on_whole_records 3 keys device_open
                    device_open_3 eq_refl)).
Defined.

Lemma X9_witness :
  3 ∈ fds interrupted /\
  transient (errno interrupted) = true /\
  forallb idle [interrupt; end_of_file; end_of_file] = true /\
  fst (loop 3 [interrupt; end_of_file; end_of_file] interrupted) = Running /\
  since interrupted
    (snd (loop 3 [interrupt; end_of_file; end_of_file] interrupted)) =
    [Read 3 24 (-1); Read 3 24 0; Read 3 24 0].
Proof.
  split; [exact interrupted_3|]. do 2 (split; [reflexivity|]).
  pose proof (X9_idle_readings_never_end_the_loop 3
                [interrupt; end_of_file; end_of_file] interrupted
                interrupted_3 eq_refl eq_refl) as (Hrun & _ & _ & Hcalls).
  split; [exact Hrun|exact Hcalls].
Defined.

Lemma X10_witness :
  (2 <= length command_line)%nat /\
  env_open daemon_fails = Done 3 /\
  0 <= 3 /\
  env_daemon daemon_fails = Fail 12 /\
  fst (main command_line daemon_fails at_start) = Some EXIT_FAILURE /\
  3 ∈ fds (snd (main command_line daemon_fails at_start)) /\
  errno (snd (main command_line daemon_fails at_start)) = 12 /\
  forall x res,
    ~ In (Close x res)
        (since at_start (snd (main command_line daemon_fails at_start))).
Proof.
  assert (2 <= length command_line)%nat as Hargc
    by (apply Nat.leb_le; reflexivity).
  assert (0 <= 3) as Hfd by discriminate.
  split; [exact Hargc|]. split; [reflexivity|]. split; [exact Hfd|].
  split; [reflexivity|].
  exact (X10_daemon_failure_leaves_device_open command_line daemon_fails
           at_start 3 12 Hargc eq_refl Hfd eq_refl).
Defined.

Lemma X11_witness :
  (2 <= length command_line)%nat /\
  env_open keys_run = Done 3 /\
  0 <= 3 /\
  env_daemon keys_run = Done tt /\
  forallb whole (env_reads keys_run) = true /\
  fst (main command_line keys_run at_start) = None /\
  3 ∈ fds (snd (main command_line keys_run at_start)) /\
  commands (since at_start (snd (main command_line keys_run at_start))) =
    ["setbacklight %+10"; "setbacklight %-10"].
Proof.
  assert (2 <= length command_line)%nat as Hargc
    by (apply Nat.leb_le; reflexivity).
  assert (0 <= 3) as Hfd by discriminate.
  split; [exact Hargc|]. split; [reflexivity|]. split; [exact Hfd|].
  do 2 (split; [reflexivity|]).
  exact (X11_main_on_whole_records command_line keys_run at_start 3 tt
           Hargc eq_refl Hfd eq_refl eq_refl).
Defined.

Lemma X12_witness :
  fst (main ["managerui"] scenario_run at_start) = Some EXIT_FAILURE /\
  (since at_start (snd (main ["managerui"] scenario_run at_start)) =
     [Stderr usage_message] \/
   (exists r, r < 0 /\
      since at_start (snd (main ["managerui"] scenario_run at_start)) =
        [Open EmptyString r; Stderr open_message]) \/
   (exists fd, 0 <= fd /\
      since at_start (snd (main ["managerui"] scenario_run at_start)) =
        [Open EmptyString fd; Daemon (-1); Stderr daemon_message])).
Proof.
  split; [reflexivity|].
  exact (X12_failed_start_calls ["managerui"] scenario_run at_start eq_refl).
Defined.
